(** * A same-domain web crawler with a keyword index

    Shallow embedding of [src/main.py] (class [WebCrawler]: [crawl], [search])
    and the properties of its visitation set, its index and its search.

    Python [str] is modelled by [string], read as the UTF-8 encoding of the
    text, the [visited] set by a [gset string], the [index] dictionary by an
    association list in insertion order.  The libraries the class calls
    ([requests.get], [BeautifulSoup], [urllib.parse.urlparse],
    [urllib.parse.urljoin]) are parameters of the model; each may raise.  The
    recursion of [crawl] is bounded by a fuel argument that counts the depth of
    the call stack; a run that needs more ends as [OutOfFuel].  The recursion
    limit of the interpreter is not modelled: there the interpreter raises
    [RecursionError], which the handler of a frame catches and logs as an
    error; a run of the program that logs no error is a run of the model that
    returns.  Beside the two fields
    of the object, the state keeps the history of the effects of a run (the
    additions to [visited], the calls of [requests.get], the writes to the
    index and the log lines), in which the properties about order are
    stated. *)

From Stdlib Require Import Ascii String.
From stdpp Require Import base gmap sets list strings.



(** ** Python strings *)

Module PyStr.

(** [c.lower()] on one ASCII character. *)
Definition lower_ascii (c : ascii) : ascii :=
  let n := nat_of_ascii c in
  if (65 <=? n)%nat && (n <=? 90)%nat then ascii_of_nat (n + 32) else c.

(** [s.lower()] on a string of ASCII characters: the letters [A] to [Z]
    become small, every other byte stays.  ([str.lower()] follows the Unicode
    tables on other characters; see [search_with] and [Unicode.lower].) *)
Fixpoint lower (s : string) : string :=
  match s with
  | EmptyString => EmptyString
  | String c s' => String (lower_ascii c) (lower s')
  end.

(** [s.startswith(p)] *)
Fixpoint startswith (p s : string) : bool :=
  match p, s with
  | EmptyString, _ => true
  | String _ _, EmptyString => false
  | String a p', String b s' => if Ascii.eqb a b then startswith p' s' else false
  end.

(** [needle in hay] (the substring test of [str.__contains__]) *)
Fixpoint contains (needle hay : string) : bool :=
  startswith needle hay ||
  match hay with
  | EmptyString => false
  | String _ hay' => contains needle hay'
  end.

(** The truth value of a string: [bool(s)]. *)
Definition truthy (s : string) : bool :=
  match s with
  | EmptyString => false
  | String _ _ => true
  end.

(** [a or b] where [a] is a string or [None]. *)
Definition or_else (a : option string) (b : string) : string :=
  match a with
  | Some x => if truthy x then x else b
  | None => b
  end.

End PyStr.

(** ** Exceptions and results of library calls *)

Inductive exn : Type :=
  | Exception (msg : string).

#[global] Instance exn_eq_dec : EqDecision exn.
Proof. solve_decision. Defined.

Inductive result (A : Type) : Type :=
  | Ok (a : A)
  | Exc (e : exn).
Arguments Ok {A} a.
Arguments Exc {A} e.

(** ** The data of the crawler *)

(** What [crawl] reads of the object [requests.get] returns:
    [response.headers.get('Content-Type')] and [response.text]. *)
Record Response : Type := mkResponse {
  content_type : option string;
  text : string
}.

(** What [crawl] reads of a [BeautifulSoup] object: [soup.get_text()] and,
    for each tag of [soup.find_all('a')] in document order, [link.get('href')]
    ([None] when the anchor has no such attribute). *)
Record Soup : Type := mkSoup {
  get_text : string;
  find_all_a : list (option string)
}.

(** The effects of a run, in the order they happen (newest first in [trace]). *)
Inductive event : Type :=
  | EvAdd (url : string)            (* self.visited.add(url) *)
  | EvGet (url : string)            (* requests.get(url) is called *)
  | EvIndex (url : string)          (* self.index[url] = ... *)
  | EvWarning (url : string)        (* logging.warning(...) *)
  | EvError (url : string) (e : exn) (* logging.error(...) *).

#[global] Instance event_eq_dec : EqDecision event.
Proof. solve_decision. Defined.

(** The object state: [self.index], [self.visited], and the history of
    effects performed on it so far. *)
Record WebCrawler : Type := mkWebCrawler {
  index : list (string * string);
  visited : gset string;
  trace : list event
}.

(** [WebCrawler()] *)
Definition new_crawler : WebCrawler :=
  {| index := []; visited := ∅; trace := [] |}.

(** [d[k] = v] on a dictionary kept in insertion order: an existing key keeps
    its place, a new key goes last. *)
Fixpoint dict_set (k v : string) (d : list (string * string)) : list (string * string) :=
  match d with
  | [] => [(k, v)]
  | (k', v') :: d' => if String.eqb k' k then (k, v) :: d' else (k', v') :: dict_set k v d'
  end.

Definition keys (d : list (string * string)) : list string := d.*1.

Definition record (e : event) (w : WebCrawler) : WebCrawler :=
  {| index := index w; visited := visited w; trace := e :: trace w |}.

Definition visited_add (url : string) (w : WebCrawler) : WebCrawler :=
  {| index := index w; visited := {[url]} ∪ visited w; trace := EvAdd url :: trace w |}.

Definition index_set (url txt : string) (w : WebCrawler) : WebCrawler :=
  {| index := dict_set url txt (index w); visited := visited w;
     trace := EvIndex url :: trace w |}.

(** The state in which [requests.get(url)] answers or raises: [url] has been
    added to [visited] and the call has been made. *)
Definition fetching (url : string) (w : WebCrawler) : WebCrawler :=
  record (EvGet url) (visited_add url w).

(** How a call ends. *)
Inductive outcome : Type :=
  | Returned (w : WebCrawler)          (* the call returned *)
  | Raised (e : exn) (w : WebCrawler)  (* an exception left the call *)
  | OutOfFuel (w : WebCrawler)         (* the depth bound of the model was reached *).

Definition state_of (o : outcome) : WebCrawler :=
  match o with
  | Returned w | Raised _ w | OutOfFuel w => w
  end.

(** What a call may change of a crawler: it only adds. *)
Definition grown (w w' : WebCrawler) : Prop :=
  visited w ⊆ visited w'
  /\ (forall u, u ∈ keys (index w) -> u ∈ keys (index w'))
  /\ trace w `suffix_of` trace w'.

(** What the body of the link loop decides for one anchor. *)
Inductive link_action : Type :=
  | LinkSkip
  | LinkCrawl (href : string)
  | LinkRaise (e : exn).

(** ** The crawler *)

Section Crawler.

(** The libraries. *)
Variable requests_get : string -> result Response.
Variable BeautifulSoup : string -> result Soup.
(** [urlparse(u).netloc] *)
Variable urlparse_netloc : string -> result string.
Variable urljoin : string -> string -> result string.

(** ['html' in response.headers.get('Content-Type', '').lower()] *)
Definition is_html (response : Response) : bool :=
  PyStr.contains "html" (PyStr.lower (default "" (content_type response))).

(** The exception that fetching or parsing [url] raises, if any:
    [requests.get(url)] raises, or the answer is HTML and [BeautifulSoup]
    raises on its text. *)
Definition failure (url : string) : option exn :=
  match requests_get url with
  | Exc e => Some e
  | Ok response =>
    if is_html response then
      match BeautifulSoup (text response) with
      | Exc e => Some e
      | Ok _ => None
      end
    else None
  end.

(** The parsed page of [url], when [requests.get(url)] answers with HTML and
    [BeautifulSoup] parses its text: what [crawl] indexes and follows. *)
Definition page_soup (url : string) : option Soup :=
  match requests_get url with
  | Exc _ => None
  | Ok response =>
    if is_html response then
      match BeautifulSoup (text response) with
      | Exc _ => None
      | Ok soup => Some soup
      end
    else None
  end.

(** The body of [for link in soup.find_all('a')] up to the recursive call,
    with [base] the value of [base_url or url]. *)
Definition resolve_link (base : string) (link : option string) : link_action :=
  match link with
  | None => LinkSkip
  | Some href =>
    if PyStr.truthy href then
      match urlparse_netloc href with
      | Exc e => LinkRaise e
      | Ok n =>
        match (if PyStr.truthy n then urljoin base href else Ok href) with
        | Exc e => LinkRaise e
        | Ok href' =>
          match urlparse_netloc base with
          | Exc e => LinkRaise e
          | Ok parsed_base =>
            match urlparse_netloc href' with
            | Exc e => LinkRaise e
            | Ok parsed_href =>
              if String.eqb parsed_href parsed_base then LinkCrawl href' else LinkSkip
            end
          end
        end
      end
    else LinkSkip
  end.

(** Every link of the page of [u] that the loop follows leads to a URL of
    [visited]: nothing is left to crawl from this page. *)
Definition links_exhausted (base u : string) (w : WebCrawler) : Prop :=
  forall r soup link href,
    requests_get u = Ok r -> BeautifulSoup (text r) = Ok soup ->
    link ∈ find_all_a soup -> resolve_link base link = LinkCrawl href ->
    href ∈ visited w.

(** The index holds the text of the visited HTML pages that parse, and no more. *)
Definition index_is_pages (w : WebCrawler) : Prop :=
  forall u t, (u, t) ∈ index w <-> u ∈ visited w /\ get_text <$> page_soup u = Some t.

(** Why an error is logged for [u]: fetching or parsing [u] raises [e], or
    a link of the page of [u] makes the URL functions raise [e]. *)
Definition error_cause (u : string) (e : exn) : Prop :=
  failure u = Some e
  \/ exists soup base link,
       page_soup u = Some soup /\ link ∈ find_all_a soup /\ resolve_link base link = LinkRaise e.

(** The loop over the anchors; [self_crawl] is the recursive call. *)
Fixpoint for_links (self_crawl : string -> option string -> WebCrawler -> outcome)
    (base : string) (links : list (option string)) (w : WebCrawler) : outcome :=
  match links with
  | [] => Returned w
  | link :: rest =>
    match resolve_link base link with
    | LinkSkip => for_links self_crawl base rest w
    | LinkRaise e => Raised e w
    | LinkCrawl href =>
      match self_crawl href (Some base) w with
      | Returned w' => for_links self_crawl base rest w'
      | o => o
      end
    end
  end.

(** [try: ... except Exception as e: logging.error(...)] *)
Definition try_except (url : string) (o : outcome) : outcome :=
  match o with
  | Raised e w => Returned (record (EvError url e) w)
  | _ => o
  end.

(** [WebCrawler.crawl(self, url, base_url=None)], within [fuel] frames of the
    call stack. *)
Fixpoint crawl (fuel : nat) (url : string) (base_url : option string)
    (w : WebCrawler) : outcome :=
  match fuel with
  | O => OutOfFuel w
  | S fuel' =>
    if decide (url ∈ visited w) then Returned w
    else
      let w := visited_add url w in
      try_except url
        (let w := record (EvGet url) w in
         match requests_get url with
         | Exc e => Raised e w
         | Ok response =>
           if negb (is_html response) then Returned (record (EvWarning url) w)
           else
             match BeautifulSoup (text response) with
             | Exc e => Raised e w
             | Ok soup =>
               let w := index_set url (get_text soup) w in
               for_links (crawl fuel') (PyStr.or_else base_url url) (find_all_a soup) w
             end
         end)
  end.

End Crawler.

(** [WebCrawler.search(self, keyword)] on the index [d], for a keyword and
    texts on which [str.lower()] changes the letters [A] to [Z] only. *)
Fixpoint search (d : list (string * string)) (keyword : string) : list string :=
  match d with
  | [] => []
  | (url, txt) :: d' =>
    if PyStr.contains (PyStr.lower keyword) (PyStr.lower txt)
    then url :: search d' keyword
    else search d' keyword
  end.

(** [WebCrawler.print_results(self, results)]: the arguments of its calls of
    [print], in order (see [stdout_of] for the text they write). *)
Definition print_results (results : list string) : list string :=
  match results with
  | [] => ["No results found."]
  | _ :: _ => "Search results:" :: map (fun result => "- " +:+ result) results
  end.

(** How the program ends: with the arguments of its calls of [print], with
    an exception, or not within the depth bound of the model. *)
Inductive run_result : Type :=
  | Printed (stdout : list string)
  | Uncaught (e : exn)
  | Unfinished.

Section Main.

Variable requests_get : string -> result Response.
Variable BeautifulSoup : string -> result Soup.
Variable urlparse_netloc : string -> result string.
Variable urljoin : string -> string -> result string.

(** [main()] *)
Definition main (fuel : nat) : run_result :=
  let crawler := new_crawler in
  let start_url := "https://example.com" in
  match crawl requests_get BeautifulSoup urlparse_netloc urljoin fuel start_url None crawler with
  | Returned crawler =>
    let keyword := "test" in
    let results := search (index crawler) keyword in
    Printed (print_results results)
  | Raised e _ => Uncaught e
  | OutOfFuel _ => Unfinished
  end.

(** The URLs a run from [seed] can reach: the seed, and every URL that the
    link loop of a reachable page follows. *)
Inductive reachable (seed : string) : string -> Prop :=
  | reachable_seed : reachable seed seed
  | reachable_link (u : string) (soup : Soup) (link : option string) (href : string) :
      reachable seed u ->
      page_soup requests_get BeautifulSoup u = Some soup ->
      link ∈ find_all_a soup ->
      resolve_link urlparse_netloc urljoin seed link = LinkCrawl href ->
      reachable seed href.

End Main.

(** ** The URL functions of [urllib.parse], for the scenarios

    [netloc] follows [urlsplit] on a URL without blanks or control
    characters: an optional scheme (a letter, then scheme characters, up to the
    first colon) is split off, and when what is left starts with two slashes
    the network location runs up to the first slash, question mark or hash.
    [urljoin] follows [urllib.parse.urljoin] for a [url] that carries a network
    location, the only case in which [crawl] calls it (the merging of relative
    paths is therefore left out), and a [url] without an empty query or
    fragment, which [urlunparse] would drop. *)

Module Urllib.

Definition between (lo hi : nat) (c : ascii) : bool :=
  (lo <=? nat_of_ascii c)%nat && (nat_of_ascii c <=? hi)%nat.

Definition is_alpha (c : ascii) : bool := between 65 90 c || between 97 122 c.

(** [scheme_chars]: letters, digits and [+-.] *)
Definition is_scheme_char (c : ascii) : bool :=
  is_alpha c || between 48 57 c
  || Ascii.eqb c "+" || Ascii.eqb c "-" || Ascii.eqb c ".".

Fixpoint all_chars (p : ascii -> bool) (s : string) : bool :=
  match s with
  | EmptyString => true
  | String c s' => p c && all_chars p s'
  end.

Fixpoint has_char (c : ascii) (s : string) : bool :=
  match s with
  | EmptyString => false
  | String c' s' => Ascii.eqb c c' || has_char c s'
  end.

(** [url[:i], url[i+1:]] for [i = url.find(':')], when there is a colon. *)
Fixpoint split_colon (url : string) : option (string * string) :=
  match url with
  | EmptyString => None
  | String c url' =>
    if Ascii.eqb c ":" then Some (EmptyString, url')
    else match split_colon url' with
         | Some (pre, post) => Some (String c pre, post)
         | None => None
         end
  end.

(** The scheme (lower-cased, empty when there is none) and the rest. *)
Definition split_scheme (url : string) : string * string :=
  match split_colon url with
  | Some (String c pre, post) =>
    if is_alpha c && all_chars is_scheme_char (String c pre)
    then (PyStr.lower (String c pre), post)
    else (EmptyString, url)
  | _ => (EmptyString, url)
  end.

(** [_splitnetloc]: up to the first of [/?#]. *)
Fixpoint splitnetloc (s : string) : string :=
  match s with
  | EmptyString => EmptyString
  | String c s' =>
    if Ascii.eqb c "/" || Ascii.eqb c "?" || Ascii.eqb c "#" then EmptyString
    else String c (splitnetloc s')
  end.

(** [urlparse(url).netloc] *)
Definition netloc (url : string) : result string :=
  match snd (split_scheme url) with
  | String "/" (String "/" rest) =>
    let n := splitnetloc rest in
    if xorb (has_char "[" n) (has_char "]" n)
    then Exc (Exception "Invalid IPv6 URL")
    else Ok n
  | _ => Ok EmptyString
  end.

Definition uses_relative : list string :=
  [""; "ftp"; "http"; "gopher"; "nntp"; "imap"; "wais"; "file"; "https";
   "shttp"; "mms"; "prospero"; "rtsp"; "rtspu"; "sftp"; "svn"; "svn+ssh";
   "ws"; "wss"].

(** [urljoin(base, url)] *)
Definition urljoin (base url : string) : result string :=
  if negb (PyStr.truthy base) then Ok url
  else if negb (PyStr.truthy url) then Ok base
  else
    match netloc base, netloc url with
    | Exc e, _ | Ok _, Exc e => Exc e
    | Ok _, Ok _ =>
      let bscheme := fst (split_scheme base) in
      let scheme :=
        if PyStr.truthy (fst (split_scheme url)) then fst (split_scheme url)
        else bscheme in
      if negb (String.eqb scheme bscheme)
         || negb (bool_decide (scheme ∈ uses_relative))
      then Ok url
      else if PyStr.truthy scheme
           then Ok (scheme +:+ ":" +:+ snd (split_scheme url))
           else Ok (snd (split_scheme url))
    end.

End Urllib.

(** ** Scenarios: small webs given by tables *)

Module Web.

Fixpoint assoc {A : Type} (k : string) (table : list (string * A)) : option A :=
  match table with
  | [] => None
  | (k', a) :: table' => if String.eqb k' k then Some a else assoc k table'
  end.

(** [requests.get] on a web of [pages]; any other URL cannot be reached. *)
Definition get (pages : list (string * Response)) (url : string) : result Response :=
  match assoc url pages with
  | Some r => Ok r
  | None => Exc (Exception "ConnectionError")
  end.

(** [BeautifulSoup(body, 'html.parser')] for the documents of [docs]; any
    other body is taken as plain text without anchors. *)
Definition soup (docs : list (string * Soup)) (body : string) : result Soup :=
  match assoc body docs with
  | Some s => Ok s
  | None => Ok {| get_text := body; find_all_a := [] |}
  end.

Definition html_page (body : string) : Response :=
  {| content_type := Some "text/html; charset=utf-8"; text := body |}.

Definition run (pages : list (string * Response)) (docs : list (string * Soup))
    (fuel : nat) (seed : string) : outcome :=
  crawl (get pages) (soup docs) Urllib.netloc Urllib.urljoin fuel seed None new_crawler.

End Web.

Definition seed_url : string := "https://example.com".

(** The seed page links to [/about] and to another site
    ([test_crawl_success]). *)
Module AboutSite.
Definition home : string :=
  "<html><body><h1>Welcome!</h1><a href='/about'>About Us</a><a href='https://external.com'>External Link</a></body></html>".
Definition about : string := "<html><body>About Us</body></html>".
Definition pages : list (string * Response) :=
  [(seed_url, Web.html_page home);
   ("https://example.com/about", Web.html_page about);
   ("https://external.com", Web.html_page "<html><body>Elsewhere</body></html>")].
Definition docs : list (string * Soup) :=
  [(home, {| get_text := "Welcome!About UsExternal Link";
             find_all_a := [Some "/about"; Some "https://external.com"] |});
   (about, {| get_text := "About Us"; find_all_a := [] |})].
End AboutSite.

(** The seed page links to an address with a misspelt scheme
    ([test_malformed_url]). *)
Module BrokenLinkSite.
Definition home : string :=
  "<html><body><a href='htp://example.com'>Broken Link</a></body></html>".
Definition pages : list (string * Response) := [(seed_url, Web.html_page home)].
Definition docs : list (string * Soup) :=
  [(home, {| get_text := "Broken Link"; find_all_a := [Some "htp://example.com"] |})].
End BrokenLinkSite.

(** The seed page links to itself ([test_infinite_loop]). *)
Module LoopSite.
Definition home : string :=
  "<html><body><a href='https://example.com'>Go to Example</a></body></html>".
Definition pages : list (string * Response) := [(seed_url, Web.html_page home)].
Definition docs : list (string * Soup) :=
  [(home, {| get_text := "Go to Example"; find_all_a := [Some "https://example.com"] |})].
End LoopSite.

(** The seed page links to an address on which [urlparse] raises, then to a
    page of the site. *)
Module BracketSite.
Definition home : string :=
  "<html><body><a href='http://[::1'>Bad</a><a href='https://example.com/next'>Next</a></body></html>".
Definition next : string := "<html><body>Next</body></html>".
Definition pages : list (string * Response) :=
  [(seed_url, Web.html_page home); ("https://example.com/next", Web.html_page next)].
Definition docs : list (string * Soup) :=
  [(home, {| get_text := "BadNext";
             find_all_a := [Some "http://[::1"; Some "https://example.com/next"] |});
   (next, {| get_text := "Next"; find_all_a := [] |})].
End BracketSite.

(** Pages of one site that link to each other, to the seed and to another
    site. *)
Module RingSite.
Definition home : string :=
  "<html><body><a href='https://example.com/a'>A</a><a href='https://other.org/'>Other</a></body></html>".
Definition a : string :=
  "<html><body><a href='https://example.com'>Home</a><a href='https://example.com/b'>B</a><a href='https://other.org/x'>X</a></body></html>".
Definition b : string :=
  "<html><body><a href='https://example.com/a'>A</a><a>nowhere</a></body></html>".
Definition pages : list (string * Response) :=
  [(seed_url, Web.html_page home);
   ("https://example.com/a", Web.html_page a);
   ("https://example.com/b", Web.html_page b);
   ("https://other.org/", Web.html_page "<html><body>Other</body></html>")].
Definition docs : list (string * Soup) :=
  [(home, {| get_text := "AOther";
             find_all_a := [Some "https://example.com/a"; Some "https://other.org/"] |});
   (a, {| get_text := "HomeBX";
          find_all_a := [Some "https://example.com"; Some "https://example.com/b";
                         Some "https://other.org/x"] |});
   (b, {| get_text := "Anowhere";
          find_all_a := [Some "https://example.com/a"; None] |})].
End RingSite.

(** The seed answers with an HTML body and no [Content-Type] header. *)
Module BareSite.
Definition home : string :=
  "<html><body><a href='https://example.com/a'>A</a></body></html>".
Definition pages : list (string * Response) :=
  [(seed_url, {| content_type := None; text := home |});
   ("https://example.com/a", Web.html_page "<html><body>A</body></html>")].
Definition docs : list (string * Soup) :=
  [(home, {| get_text := "A"; find_all_a := [Some "https://example.com/a"] |})].
End BareSite.

(** A page of another site that links to the site of the seed and to its own
    site. *)
Module PortalSite.
Definition portal_url : string := "https://portal.test/".
Definition portal : string :=
  "<html><body><a href='https://example.com/a'>A</a><a href='https://portal.test/more'>More</a></body></html>".
Definition pages : list (string * Response) :=
  [(portal_url, Web.html_page portal);
   ("https://portal.test/more", Web.html_page "<html><body>More</body></html>");
   ("https://example.com/a", Web.html_page "<html><body>A</body></html>")].
Definition docs : list (string * Soup) :=
  [(portal, {| get_text := "AMore";
               find_all_a := [Some "https://example.com/a";
                              Some "https://portal.test/more"] |});
   ("<html><body>A</body></html>", {| get_text := "A"; find_all_a := [] |});
   ("<html><body>More</body></html>", {| get_text := "More"; find_all_a := [] |})].
End PortalSite.

(** A site some of whose pages have the word of [main] in their text. *)
Module NewsSite.
Definition home : string :=
  "<html><body>Latest tests<a href='https://example.com/blog'>Blog</a><a href='https://example.com/faq'>FAQ</a></body></html>".
Definition blog : string := "<html><body>A TEST post</body></html>".
Definition faq : string := "<html><body>Questions</body></html>".
Definition pages : list (string * Response) :=
  [(seed_url, Web.html_page home);
   ("https://example.com/blog", Web.html_page blog);
   ("https://example.com/faq", Web.html_page faq)].
Definition docs : list (string * Soup) :=
  [(home, {| get_text := "Latest testsBlogFAQ";
             find_all_a := [Some "https://example.com/blog";
                            Some "https://example.com/faq"] |});
   (blog, {| get_text := "A TEST post"; find_all_a := [] |});
   (faq, {| get_text := "Questions"; find_all_a := [] |})].
End NewsSite.

(** The seed answers with HTML and an empty body ([test_empty_html]). *)
Module EmptySite.
Definition pages : list (string * Response) := [(seed_url, Web.html_page "")].
End EmptySite.

(** The seed is a PDF document ([test_non_html_content]). *)
Module PdfSite.
Definition pages : list (string * Response) :=
  [(seed_url, {| content_type := Some "application/pdf"; text := "%PDF-1.4" |})].
End PdfSite.

(** The seed answers with an HTML body and a [Content-Type] header in capital
    letters. *)
Module CapsSite.
Definition home : string := "<html><body>Loud</body></html>".
Definition pages : list (string * Response) :=
  [(seed_url, {| content_type := Some "TEXT/HTML; charset=UTF-8"; text := home |})].
Definition docs : list (string * Soup) :=
  [(home, {| get_text := "Loud"; find_all_a := [] |})].
End CapsSite.


(** ** Notions the properties are stated with *)

(** [keyword] occurs in [txt] without regard to case: a contiguous part of
    [txt] equals [keyword] up to the case of its letters. *)
Definition occurs_nocase (keyword txt : string) : Prop :=
  exists pre part post,
    txt = pre +:+ part +:+ post /\ PyStr.lower part = PyStr.lower keyword.

(** The URLs added to [visited], and the URLs [requests.get] was called on,
    newest first. *)
Fixpoint adds (tr : list event) : list string :=
  match tr with
  | [] => []
  | EvAdd u :: tr' => u :: adds tr'
  | _ :: tr' => adds tr'
  end.

Fixpoint gets (tr : list event) : list string :=
  match tr with
  | [] => []
  | EvGet u :: tr' => u :: gets tr'
  | _ :: tr' => gets tr'
  end.

(** What must have happened just before an event: a fetch of [u] comes right
    after [u] was added to [visited], the indexing of [u] right after its
    fetch. *)
Definition comes_after (e : event) (earlier : list event) : Prop :=
  match e with
  | EvGet u => exists l, earlier = EvAdd u :: l
  | EvIndex u => exists l, earlier = EvGet u :: l
  | _ => True
  end.

Definition well_ordered (tr : list event) : Prop :=
  forall later e earlier, tr = later ++ e :: earlier -> comes_after e earlier.

(** The state of a crawler whose history explains its [visited] set and its
    [index], on a web where [requests_get] answers. *)
Record consistent (requests_get : string -> result Response) (w : WebCrawler) : Prop :=
  mkConsistent {
    adds_once : NoDup (adds (trace w));
    gets_once : NoDup (gets (trace w));
    adds_visited : forall u, u ∈ adds (trace w) <-> u ∈ visited w;
    gets_visited : forall u, u ∈ gets (trace w) -> u ∈ visited w;
    trace_ordered : well_ordered (trace w);
    keys_once : NoDup (keys (index w));
    keys_indexed : forall u, u ∈ keys (index w) -> EvIndex u ∈ trace w;
    indexed_html : forall u, EvIndex u ∈ trace w ->
      exists r, requests_get u = Ok r /\ is_html r = true
  }.

(** The crawl as the specification words it: the base of the whole run is the
    seed, at every depth. *)
Section CrawlFrom.

Variable requests_get : string -> result Response.
Variable BeautifulSoup : string -> result Soup.
Variable urlparse_netloc : string -> result string.
Variable urljoin : string -> string -> result string.

Fixpoint crawl_from (seed : string) (fuel : nat) (url : string) (w : WebCrawler) : outcome :=
  match fuel with
  | O => OutOfFuel w
  | S fuel' =>
    if decide (url ∈ visited w) then Returned w
    else
      let w := visited_add url w in
      try_except url
        (let w := record (EvGet url) w in
         match requests_get url with
         | Exc e => Raised e w
         | Ok response =>
           if negb (is_html response) then Returned (record (EvWarning url) w)
           else
             match BeautifulSoup (text response) with
             | Exc e => Raised e w
             | Ok soup =>
               let w := index_set url (get_text soup) w in
               for_links urlparse_netloc urljoin
                 (fun href _ => crawl_from seed fuel' href) seed (find_all_a soup) w
             end
         end)
  end.

End CrawlFrom.


(** ** Letters, their case, and [str.lower()]

    A Python [str] is read as its UTF-8 encoding: a character below 128 is one
    byte, any other character a sequence of bytes from 128 on, and the
    substring test on bytes is the substring test on characters.
    [PyStr.lower] is [str.lower()] on ASCII strings; on other strings
    [str.lower()] follows the Unicode tables, which the model takes as a
    parameter ([str_lower] below). *)

Module Case.

(** Every character is below 128. *)
Fixpoint is_ascii (s : string) : bool :=
  match s with
  | EmptyString => true
  | String c s' => (nat_of_ascii c <? 128)%nat && is_ascii s'
  end.

(** One of the letters [A] to [Z]. *)
Definition is_upper (c : ascii) : bool :=
  (65 <=? nat_of_ascii c)%nat && (nat_of_ascii c <=? 90)%nat.

(** The same character, or a letter [A] to [Z] and its small letter. *)
Definition same_letter (a b : ascii) : Prop :=
  a = b
  \/ (is_upper a = true /\ nat_of_ascii b = nat_of_ascii a + 32)
  \/ (is_upper b = true /\ nat_of_ascii a = nat_of_ascii b + 32).

(** Two strings that differ at most in the case of their letters. *)
Inductive same_nocase : string -> string -> Prop :=
  | same_nocase_nil : same_nocase EmptyString EmptyString
  | same_nocase_cons (a b : ascii) (s t : string) :
      same_letter a b -> same_nocase s t -> same_nocase (String a s) (String b t).

(** [keyword] occurs in [txt] without regard to the case of letters. *)
Definition occurs_ignoring_case (keyword txt : string) : Prop :=
  exists pre part post, txt = pre +:+ part +:+ post /\ same_nocase part keyword.

End Case.

(** [WebCrawler.search] with [str.lower] as a parameter; [search] above is
    [search_with PyStr.lower]. *)
Section SearchWith.

Variable str_lower : string -> string.

Fixpoint search_with (d : list (string * string)) (keyword : string) : list string :=
  match d with
  | [] => []
  | (url, txt) :: d' =>
    if PyStr.contains (str_lower keyword) (str_lower txt)
    then url :: search_with d' keyword
    else search_with d' keyword
  end.

(** What is assumed of [str.lower]: on an ASCII string it lowers the letters
    [A] to [Z] and leaves the rest. *)
Definition lowers_ascii : Prop :=
  forall s, Case.is_ascii s = true -> str_lower s = PyStr.lower s.

End SearchWith.

(** [str.lower()] on strings of ASCII characters and of the Greek letters
    U+0391 to U+03A9 and U+03B1 to U+03C9, in UTF-8 (lead bytes 206 and 207),
    without case-ignorable characters (apostrophe, full stop, colon and the
    like): a capital Greek letter becomes its small letter, and capital sigma
    (206 163) becomes final sigma (207 130) when a cased letter comes before it
    and none after it, as in CPython's [handle_capital_sigma], else small sigma
    (207 131). *)
Module Unicode.

Definition byte (n : nat) : ascii := ascii_of_nat n.

Definition is_letter (c : ascii) : bool :=
  Case.is_upper c || ((97 <=? nat_of_ascii c)%nat && (nat_of_ascii c <=? 122)%nat).

(** The second byte of a capital Greek letter after the lead byte 206. *)
Definition greek_capital (b : ascii) : bool :=
  (145 <=? nat_of_ascii b)%nat && (nat_of_ascii b <=? 169)%nat
  && negb (nat_of_ascii b =? 162)%nat.

(** A small Greek letter: 206 then 177 to 191, or 207 then 128 to 137. *)
Definition greek_small (c b : ascii) : bool :=
  ((nat_of_ascii c =? 206)%nat
   && (177 <=? nat_of_ascii b)%nat && (nat_of_ascii b <=? 191)%nat)
  || ((nat_of_ascii c =? 207)%nat
      && (128 <=? nat_of_ascii b)%nat && (nat_of_ascii b <=? 137)%nat).

(** The string starts with a cased letter. *)
Definition starts_cased (s : string) : bool :=
  match s with
  | EmptyString => false
  | String c rest =>
    is_letter c
    || match rest with
       | EmptyString => false
       | String b _ =>
         ((nat_of_ascii c =? 206)%nat && greek_capital b) || greek_small c b
       end
  end.

Fixpoint lower_after (prev_cased : bool) (s : string) : string :=
  match s with
  | EmptyString => EmptyString
  | String c rest =>
    match rest with
    | EmptyString => String (PyStr.lower_ascii c) EmptyString
    | String b rest' =>
      if (nat_of_ascii c =? 206)%nat && greek_capital b then
        if (nat_of_ascii b =? 163)%nat then
          if prev_cased && negb (starts_cased rest')
          then String (byte 207) (String (byte 130) (lower_after true rest'))
          else String (byte 207) (String (byte 131) (lower_after true rest'))
        else if (nat_of_ascii b <? 160)%nat
        then String c (String (byte (nat_of_ascii b + 32)) (lower_after true rest'))
        else String (byte 207) (String (byte (nat_of_ascii b - 32)) (lower_after true rest'))
      else if greek_small c b then String c (String b (lower_after true rest'))
      else String (PyStr.lower_ascii c) (lower_after (is_letter c) rest)
    end
  end.

(** [s.lower()] *)
Definition lower (s : string) : string := lower_after false s.

End Unicode.

(** ** What is printed *)

Definition newline : ascii := ascii_of_nat 10.

(** The text that calls of [print] with the arguments [args] write to
    standard output: each argument, then a newline. *)
Fixpoint stdout_of (args : list string) : string :=
  match args with
  | [] => EmptyString
  | arg :: args' => arg +:+ String newline (stdout_of args')
  end.

(** The lines of a text: what comes before each newline, and what comes
    after the last one if anything does. *)
Fixpoint lines_of (s : string) : list string :=
  match s with
  | EmptyString => []
  | String c s' =>
    if Ascii.eqb c newline then EmptyString :: lines_of s'
    else match lines_of s' with
         | [] => [String c EmptyString]
         | l :: ls => String c l :: ls
         end
  end.

(** No newline in the string. *)
Fixpoint one_line (s : string) : bool :=
  match s with
  | EmptyString => true
  | String c s' => negb (Ascii.eqb c newline) && one_line s'
  end.

(** ** Errors in the log *)

(** The errors logged, newest first. *)
Fixpoint errors (tr : list event) : list (string * exn) :=
  match tr with
  | [] => []
  | EvError u e :: tr' => (u, e) :: errors tr'
  | _ :: tr' => errors tr'
  end.

(** ** Pages whose links are settled *)

Section Settled.

Variable requests_get : string -> result Response.
Variable BeautifulSoup : string -> result Soup.
Variable urlparse_netloc : string -> result string.
Variable urljoin : string -> string -> result string.
Variable base : string.

(** Nothing is left to crawl from the page of [u], unless an error was
    logged for [u]. *)
Definition settled (u : string) (w : WebCrawler) : Prop :=
  (exists e, EvError u e ∈ trace w)
  \/ links_exhausted requests_get BeautifulSoup urlparse_netloc urljoin base u w.

(** Every page indexed between [w] and [w'] is settled in [w']. *)
Definition pages_settled (w w' : WebCrawler) : Prop :=
  forall u, u ∈ keys (index w') -> u ∈ keys (index w) \/ settled u w'.

(** What a call on [url] that returns has achieved. *)
Definition call_settles (url : string) (w w' : WebCrawler) : Prop :=
  grown w w' /\ url ∈ visited w' /\ pages_settled w w'.

(** What the loop over [links] has achieved when it ends with [o]. *)
Definition loop_settles (links : list (option string)) (w : WebCrawler) (o : outcome) : Prop :=
  match o with
  | Returned w' =>
    grown w w' /\ pages_settled w w'
    /\ forall link href, link ∈ links ->
         resolve_link urlparse_netloc urljoin base link = LinkCrawl href -> href ∈ visited w'
  | Raised _ w' => grown w w' /\ pages_settled w w'
  | OutOfFuel _ => True
  end.

End Settled.

(** * Properties *)

(** ** Strings *)

Module PyStrFacts.
Import PyStr.

Lemma app_nil (b : string) : EmptyString +:+ b = b.
Proof. reflexivity. Qed.

Lemma app_cons (c : ascii) (a b : string) : String c a +:+ b = String c (a +:+ b).
Proof. reflexivity. Qed.

Lemma startswith_spec (p s : string) :
  startswith p s = true <-> exists post, s = p +:+ post.
Proof.
  revert s. induction p as [|a p IH]; intros s; simpl.
  - split; [intros _; by exists s | done].
  - destruct s as [|b s].
    + split; [done | intros [post Hp]; rewrite app_cons in Hp; discriminate].
    + destruct (Ascii.eqb_spec a b) as [->|Hab].
      * rewrite IH. split; intros [post Hp]; exists post;
          rewrite app_cons in *; congruence.
      * split; [done | intros [post Hp]; rewrite app_cons in Hp; congruence].
Qed.

Lemma contains_spec (needle hay : string) :
  contains needle hay = true <-> exists pre post, hay = pre +:+ needle +:+ post.
Proof.
  induction hay as [|c hay IH]; simpl.
  - rewrite orb_false_r, startswith_spec. split.
    + intros [post Hp]. by exists EmptyString, post.
    + intros [[|c pre] [post Hp]]; [by exists post | discriminate].
  - rewrite orb_true_iff, startswith_spec, IH. split.
    + intros [[post Hp] | (pre & post & Hp)].
      * by exists EmptyString, post.
      * exists (String c pre), post. by rewrite app_cons, Hp.
    + intros ([|c' pre] & post & Hp).
      * left. by exists post.
      * right. exists pre, post. rewrite app_cons in Hp. congruence.
Qed.

Lemma contains_empty (hay : string) : contains EmptyString hay = true.
Proof. by destruct hay. Qed.

Lemma lower_app (a b : string) : lower (a +:+ b) = lower a +:+ lower b.
Proof.
  induction a as [|c a IH]; [done|].
  rewrite app_cons. simpl. by rewrite IH.
Qed.

Lemma lower_split (s a b : string) :
  lower s = a +:+ b ->
  exists s1 s2, s = s1 +:+ s2 /\ lower s1 = a /\ lower s2 = b.
Proof.
  revert s. induction a as [|c a IH]; intros s Hs.
  - by exists EmptyString, s.
  - rewrite app_cons in Hs.
    destruct s as [|d s]; simpl in Hs; [discriminate|].
    injection Hs as Hc Hs. destruct (IH s Hs) as (s1 & s2 & -> & H1 & H2).
    exists (String d s1), s2. simpl. by rewrite Hc, H1.
Qed.

End PyStrFacts.

(** ** Search *)

Lemma contains_lower_nocase (keyword txt : string) :
  PyStr.contains (PyStr.lower keyword) (PyStr.lower txt) = true
  <-> occurs_nocase keyword txt.
Proof.
  rewrite PyStrFacts.contains_spec. split.
  - intros (pre & post & Hp).
    apply PyStrFacts.lower_split in Hp as (s1 & s23 & -> & H1 & H23).
    apply PyStrFacts.lower_split in H23 as (s2 & s3 & -> & H2 & H3).
    by exists s1, s2, s3.
  - intros (pre & part & post & -> & Hl).
    exists (PyStr.lower pre), (PyStr.lower post).
    by rewrite !PyStrFacts.lower_app, Hl.
Qed.

Lemma search_elem_of (d : list (string * string)) (keyword url : string) :
  url ∈ search d keyword
  <-> exists txt, (url, txt) ∈ d /\ occurs_nocase keyword txt.
Proof.
  induction d as [|[u t] d IH]; simpl.
  - split; [by intros ?%elem_of_nil | by intros (? & ?%elem_of_nil & _)].
  - destruct (PyStr.contains _ _) eqn:Hc.
    + rewrite elem_of_cons, IH. split.
      * intros [-> | (txt & Hin & Ho)].
        -- exists t. split; [left | by apply contains_lower_nocase].
        -- exists txt. split; [by right | done].
      * intros (txt & [Heq | Hin]%elem_of_cons & Ho).
        -- left. congruence.
        -- right. by exists txt.
    + rewrite IH. split.
      * intros (txt & Hin & Ho). exists txt. split; [by right | done].
      * intros (txt & [Heq | Hin]%elem_of_cons & Ho).
        -- injection Heq as -> ->. apply contains_lower_nocase in Ho. congruence.
        -- by exists txt.
Qed.

Lemma search_sublist (d : list (string * string)) (keyword : string) :
  search d keyword `sublist_of` keys d.
Proof.
  induction d as [|[u t] d IH]; simpl; [constructor|].
  destruct (PyStr.contains _ _); by constructor.
Qed.

(** ** The case of letters *)

Lemma is_upper_range (c : ascii) :
  Case.is_upper c = true <-> 65 <= nat_of_ascii c <= 90.
Proof.
  unfold Case.is_upper. rewrite andb_true_iff, !Nat.leb_le. done.
Qed.

Lemma lower_ascii_upper (c : ascii) :
  Case.is_upper c = true ->
  nat_of_ascii (PyStr.lower_ascii c) = nat_of_ascii c + 32.
Proof.
  intros Hc. unfold PyStr.lower_ascii. fold (Case.is_upper c). rewrite Hc.
  apply is_upper_range in Hc. apply nat_ascii_embedding. lia.
Qed.

Lemma lower_ascii_other (c : ascii) :
  Case.is_upper c = false -> PyStr.lower_ascii c = c.
Proof. intros Hc. unfold PyStr.lower_ascii. fold (Case.is_upper c). by rewrite Hc. Qed.

Lemma nat_of_ascii_inj (a b : ascii) : nat_of_ascii a = nat_of_ascii b -> a = b.
Proof.
  intros H. rewrite <- (ascii_nat_embedding a), <- (ascii_nat_embedding b). by rewrite H.
Qed.

Lemma lower_ascii_same (a b : ascii) :
  PyStr.lower_ascii a = PyStr.lower_ascii b <-> Case.same_letter a b.
Proof.
  unfold Case.same_letter. split.
  - intros Hl. apply (f_equal nat_of_ascii) in Hl.
    destruct (Case.is_upper a) eqn:Ha, (Case.is_upper b) eqn:Hb.
    + rewrite !lower_ascii_upper in Hl by done. left. apply nat_of_ascii_inj. lia.
    + rewrite lower_ascii_upper, (lower_ascii_other b) in Hl by done.
      right. left. split; [done | lia].
    + rewrite (lower_ascii_other a), lower_ascii_upper in Hl by done.
      right. right. split; [done | lia].
    + rewrite !lower_ascii_other in Hl by done. left. by apply nat_of_ascii_inj.
  - intros [-> | [[Ha Hb] | [Hb Ha]]]; [done| |].
    + apply nat_of_ascii_inj. rewrite lower_ascii_upper by done.
      rewrite lower_ascii_other; [done|].
      apply is_upper_range in Ha. apply not_true_is_false.
      intros Hu%is_upper_range. lia.
    + apply nat_of_ascii_inj. rewrite (lower_ascii_upper b) by done.
      rewrite lower_ascii_other; [done|].
      apply is_upper_range in Hb. apply not_true_is_false.
      intros Hu%is_upper_range. lia.
Qed.

Lemma lower_same_nocase (s t : string) :
  PyStr.lower s = PyStr.lower t <-> Case.same_nocase s t.
Proof.
  split.
  - revert t. induction s as [|a s IH]; intros [|b t]; simpl; try done.
    + intros _. constructor.
    + intros [= Hab Hst]. constructor; [by apply lower_ascii_same | by apply IH].
  - induction 1 as [|a b s t Hab _ IH]; [done|]. simpl.
    apply lower_ascii_same in Hab. by rewrite Hab, IH.
Qed.

Lemma occurs_nocase_ignoring_case (keyword txt : string) :
  occurs_nocase keyword txt <-> Case.occurs_ignoring_case keyword txt.
Proof.
  split; intros (pre & part & post & Ht & Hp); exists pre, part, post;
    (split; [done|]); by apply lower_same_nocase.
Qed.

Lemma contains_lower_ignoring_case (keyword txt : string) :
  PyStr.contains (PyStr.lower keyword) (PyStr.lower txt) = true
  <-> Case.occurs_ignoring_case keyword txt.
Proof. by rewrite contains_lower_nocase, occurs_nocase_ignoring_case. Qed.

Lemma same_nocase_refl (s : string) : Case.same_nocase s s.
Proof. induction s; constructor; [by left | done]. Qed.

Lemma is_ascii_empty : Case.is_ascii EmptyString = true.
Proof. reflexivity. Qed.

(** ** Search with [str.lower] *)

Lemma unicode_lower_after_ascii (s : string) : forall prev_cased,
  Case.is_ascii s = true -> Unicode.lower_after prev_cased s = PyStr.lower s.
Proof.
  induction s as [|c s IH]; intros prev_cased Hs; [done|].
  cbn [Case.is_ascii] in Hs. apply andb_true_iff in Hs as [Hc Hs].
  apply Nat.ltb_lt in Hc.
  cbn [Unicode.lower_after PyStr.lower]. destruct s as [|b s']; [done|].
  assert (H206 : (nat_of_ascii c =? 206)%nat = false) by (apply Nat.eqb_neq; lia).
  assert (H207 : (nat_of_ascii c =? 207)%nat = false) by (apply Nat.eqb_neq; lia).
  unfold Unicode.greek_small. rewrite H206, H207. cbn [andb orb].
  by rewrite (IH _ Hs).
Qed.

Lemma unicode_lowers_ascii : lowers_ascii Unicode.lower.
Proof. intros s Hs. by apply unicode_lower_after_ascii. Qed.

Lemma pystr_lowers_ascii : lowers_ascii PyStr.lower.
Proof. by intros s _. Qed.

Section SearchWithFacts.

Variable str_lower : string -> string.

Local Abbreviation lowered_in keyword txt :=
  (exists pre post, str_lower txt = pre +:+ str_lower keyword +:+ post).

Lemma search_with_elem_of (d : list (string * string)) (keyword url : string) :
  url ∈ search_with str_lower d keyword
  <-> exists txt, (url, txt) ∈ d /\ lowered_in keyword txt.
Proof.
  induction d as [|[u t] d IH]; cbn [search_with].
  - split; [by intros ?%elem_of_nil | by intros (? & ?%elem_of_nil & _)].
  - destruct (PyStr.contains _ _) eqn:Hc.
    + rewrite elem_of_cons, IH. split.
      * intros [-> | (txt & Hin & Ho)].
        -- exists t. split; [left | by apply PyStrFacts.contains_spec].
        -- exists txt. split; [by right | done].
      * intros (txt & [Heq | Hin]%elem_of_cons & Ho).
        -- left. congruence.
        -- right. by exists txt.
    + rewrite IH. split.
      * intros (txt & Hin & Ho). exists txt. split; [by right | done].
      * intros (txt & [Heq | Hin]%elem_of_cons & Ho).
        -- injection Heq as -> ->. apply PyStrFacts.contains_spec in Ho. congruence.
        -- by exists txt.
Qed.

Lemma search_with_sublist (d : list (string * string)) (keyword : string) :
  search_with str_lower d keyword `sublist_of` keys d.
Proof.
  induction d as [|[u t] d IH]; cbn [search_with]; [constructor|].
  change (keys ((u, t) :: d)) with (u :: keys d).
  destruct (PyStr.contains _ _); by constructor.
Qed.

Hypothesis Hlower : lowers_ascii str_lower.

Lemma lowered_in_ascii (keyword txt : string) :
  Case.is_ascii keyword = true -> Case.is_ascii txt = true ->
  lowered_in keyword txt <-> Case.occurs_ignoring_case keyword txt.
Proof.
  intros Hk Ht. rewrite (Hlower _ Hk), (Hlower _ Ht).
  by rewrite <- PyStrFacts.contains_spec, contains_lower_ignoring_case.
Qed.

(** C4. [search] returns exactly the URLs whose indexed text, lower-cased
    by [str.lower()], contains the lower-cased keyword as a contiguous
    substring, however often it occurs.  For an ASCII keyword and a URL whose
    indexed text is ASCII, that is: the text contains the keyword without
    regard to the case of letters.  The result is in the order of the index (a
    sublist of its keys), holds each URL at most once since the keys of the
    index are distinct, is the whole list of keys for the empty keyword, and is
    empty when no lower-cased text contains the lower-cased keyword. *)
Theorem search_lowered_substring (d : list (string * string)) (keyword : string) :
  (forall url, url ∈ search_with str_lower d keyword
     <-> exists txt, (url, txt) ∈ d /\ lowered_in keyword txt)
  /\ (Case.is_ascii keyword = true ->
      forall url, (forall txt, (url, txt) ∈ d -> Case.is_ascii txt = true) ->
        (url ∈ search_with str_lower d keyword
         <-> exists txt, (url, txt) ∈ d /\ Case.occurs_ignoring_case keyword txt))
  /\ search_with str_lower d keyword `sublist_of` keys d
  /\ (NoDup (keys d) -> NoDup (search_with str_lower d keyword))
  /\ search_with str_lower d EmptyString = keys d
  /\ ((forall url txt, (url, txt) ∈ d -> ~ lowered_in keyword txt)
      -> search_with str_lower d keyword = []).
Proof.
  split; [apply search_with_elem_of|].
  split.
  { intros Hk url Hascii. rewrite search_with_elem_of. split.
    - intros (txt & Hin & Ho). exists txt. split; [done|].
      by apply lowered_in_ascii; [|apply Hascii|].
    - intros (txt & Hin & Ho). exists txt. split; [done|].
      by apply lowered_in_ascii; [|apply Hascii|]. }
  split; [apply search_with_sublist|].
  split; [intros Hnd; exact (sublist_NoDup _ _ Hnd (search_with_sublist d keyword))|].
  split.
  { induction d as [|[u t] d IH]; cbn [search_with]; [done|].
    change (keys ((u, t) :: d)) with (u :: keys d).
    rewrite (Hlower EmptyString is_ascii_empty). cbn [PyStr.lower].
    rewrite PyStrFacts.contains_empty. by rewrite IH. }
  intros Hno. apply elem_of_nil_inv. intros u Hu.
  apply search_with_elem_of in Hu as (txt & Hin & Ho). by destruct (Hno u txt).
Qed.

End SearchWithFacts.

Lemma search_with_pystr_lower (d : list (string * string)) (keyword : string) :
  search_with PyStr.lower d keyword = search d keyword.
Proof. induction d as [|[u t] d IH]; cbn [search_with search]; [done|]. by rewrite IH. Qed.

(** C4, beyond ASCII.  The text of [p] contains the keyword, capital sigma,
    as it stands, yet [search] does not find [p]: [str.lower()] turns the sigma
    that ends the text into a final sigma and the keyword into a small
    sigma. *)
Lemma search_misses_capital_sigma :
  Case.occurs_ignoring_case "Σ" "ΑΣ"
  /\ (exists pre post, "ΑΣ" = pre +:+ "Σ" +:+ post)
  /\ search_with Unicode.lower [("p", "ΑΣ")] "Σ" = []
  /\ ~ ("p" ∈ search_with Unicode.lower [("p", "ΑΣ")] "Σ"
        <-> exists txt, (("p" : string), txt) ∈ [(("p" : string), ("ΑΣ" : string))]
                        /\ Case.occurs_ignoring_case "Σ" txt).
Proof.
  assert (Hex : exists pre post, "ΑΣ" = pre +:+ "Σ" +:+ post).
  { by exists "Α", EmptyString. }
  assert (Hoc : Case.occurs_ignoring_case "Σ" "ΑΣ").
  { exists "Α", "Σ", EmptyString. split; [done | apply same_nocase_refl]. }
  assert (Hs : search_with Unicode.lower [("p", "ΑΣ")] "Σ" = [])
    by (vm_compute; reflexivity).
  split; [done|]. split; [done|]. split; [done|].
  rewrite Hs. intros [_ Hfind].
  assert (Hin : ("p" : string) ∈ ([] : list string)).
  { apply Hfind. exists "ΑΣ". split; [left | done]. }
  by apply elem_of_nil in Hin.
Qed.

(** ** Traces and dictionaries *)

Lemma elem_of_adds (u : string) (tr : list event) : u ∈ adds tr <-> EvAdd u ∈ tr.
Proof.
  induction tr as [|e tr IH]; simpl.
  - split; intros H; inversion H.
  - destruct e; rewrite ?elem_of_cons, IH;
      first [ split; [intros [->|?]; [by left | by right]
                     | intros [[= ->]|?]; [by left | by right]]
            | split; [by right | intros [[=]|?]; done] ].
Qed.

Lemma elem_of_gets (u : string) (tr : list event) : u ∈ gets tr <-> EvGet u ∈ tr.
Proof.
  induction tr as [|e tr IH]; simpl.
  - split; intros H; inversion H.
  - destruct e; rewrite ?elem_of_cons, IH;
      first [ split; [intros [->|?]; [by left | by right]
                     | intros [[= ->]|?]; [by left | by right]]
            | split; [by right | intros [[=]|?]; done] ].
Qed.

Lemma well_ordered_nil : well_ordered [].
Proof. intros [|e0 later] e earlier H; discriminate. Qed.

Lemma well_ordered_cons (e : event) (tr : list event) :
  well_ordered tr -> comes_after e tr -> well_ordered (e :: tr).
Proof.
  intros Htr He [|e0 later] e' earlier Heq; simpl in Heq.
  - injection Heq as <- <-. exact He.
  - injection Heq as _ Heq. by apply (Htr later).
Qed.

Lemma visited_fetching (url : string) (w : WebCrawler) :
  visited (fetching url w) = {[url]} ∪ visited w.
Proof. reflexivity. Qed.

Lemma visited_index_set (url txt : string) (w : WebCrawler) :
  visited (index_set url txt w) = visited w.
Proof. reflexivity. Qed.

Lemma visited_record (e : event) (w : WebCrawler) : visited (record e w) = visited w.
Proof. reflexivity. Qed.

Lemma visited_new : visited new_crawler = ∅.
Proof. reflexivity. Qed.

Lemma keys_cons (k v : string) (d : list (string * string)) :
  keys ((k, v) :: d) = k :: keys d.
Proof. reflexivity. Qed.

Lemma keys_dict_set (k v : string) (d : list (string * string)) :
  keys (dict_set k v d) = if decide (k ∈ keys d) then keys d else keys d ++ [k].
Proof.
  induction d as [|[k' v'] d IH]; [done|].
  cbn [dict_set]. destruct (String.eqb_spec k' k) as [->|Hne].
  - rewrite !keys_cons, decide_True by left. done.
  - rewrite !keys_cons, IH. destruct (decide (k ∈ keys d)) as [Hin|Hin].
    + rewrite decide_True by (by right). done.
    + rewrite decide_False; [done|].
      intros [?|?]%elem_of_cons; [congruence | done].
Qed.

Lemma elem_of_keys_dict_set (u k v : string) (d : list (string * string)) :
  u ∈ keys (dict_set k v d) <-> u = k \/ u ∈ keys d.
Proof.
  rewrite keys_dict_set. case_decide as Hin.
  - split; [by right | intros [->|?]; done].
  - rewrite elem_of_app, list_elem_of_singleton. tauto.
Qed.

Lemma NoDup_keys_dict_set (k v : string) (d : list (string * string)) :
  NoDup (keys d) -> NoDup (keys (dict_set k v d)).
Proof.
  intros Hnd. rewrite keys_dict_set. case_decide as Hin; [done|].
  apply NoDup_app. split; [done|]. split; [|apply NoDup_singleton].
  intros x Hx ->%list_elem_of_singleton. done.
Qed.

(** ** The crawler *)

Section CrawlerFacts.

Variable requests_get : string -> result Response.
Variable BeautifulSoup : string -> result Soup.
Variable urlparse_netloc : string -> result string.
Variable urljoin : string -> string -> result string.

Local Abbreviation run_crawl := (crawl requests_get BeautifulSoup urlparse_netloc urljoin).
Local Abbreviation resolve := (resolve_link urlparse_netloc urljoin).
Local Abbreviation links_loop := (for_links urlparse_netloc urljoin).

Lemma crawl_S (fuel : nat) (url : string) (bu : option string) (w : WebCrawler) :
  run_crawl (S fuel) url bu w
  = if decide (url ∈ visited w) then Returned w
    else try_except url
      match requests_get url with
      | Exc e => Raised e (fetching url w)
      | Ok response =>
        if negb (is_html response) then Returned (record (EvWarning url) (fetching url w))
        else match BeautifulSoup (text response) with
             | Exc e => Raised e (fetching url w)
             | Ok soup =>
               links_loop (run_crawl fuel) (PyStr.or_else bu url) (find_all_a soup)
                 (index_set url (get_text soup) (fetching url w))
             end
      end.
Proof. reflexivity. Qed.

(** *** A proof rule for invariants of a run

    [A] holds of the arguments of every call, [I] of the state at every point. *)
Section Invariant.

Variable A : string -> option string -> Prop.
Variable I : WebCrawler -> Prop.

Hypothesis A_link : forall url bu link href,
  A url bu -> resolve (PyStr.or_else bu url) link = LinkCrawl href ->
  A href (Some (PyStr.or_else bu url)).
Hypothesis I_get : forall url bu w,
  A url bu -> I w -> url ∉ visited w -> I (fetching url w).
Hypothesis I_error : forall url e w, I w -> I (record (EvError url e) w).
Hypothesis I_warning : forall url w, I w -> I (record (EvWarning url) w).
Hypothesis I_index : forall url w r soup,
  url ∉ visited w -> I (fetching url w) ->
  requests_get url = Ok r -> is_html r = true -> BeautifulSoup (text r) = Ok soup ->
  I (index_set url (get_text soup) (fetching url w)).

Lemma try_except_invariant (url : string) (o : outcome) :
  I (state_of o) -> I (state_of (try_except url o)).
Proof. destruct o; simpl; auto. Qed.

Lemma for_links_invariant (self_crawl : string -> option string -> WebCrawler -> outcome)
    (base : string) (links : list (option string)) :
  (forall link href, resolve base link = LinkCrawl href ->
     forall w, I w -> I (state_of (self_crawl href (Some base) w))) ->
  forall w, I w -> I (state_of (links_loop self_crawl base links w)).
Proof.
  intros Hself. induction links as [|link rest IH]; intros w Hw; simpl; [done|].
  destruct (resolve base link) as [|href|e] eqn:Hr; [by apply IH| |done].
  specialize (Hself link href Hr w Hw).
  destruct (self_crawl href (Some base) w); simpl in *; [by apply IH|done|done].
Qed.

Lemma crawl_invariant (fuel : nat) : forall url bu w,
  A url bu -> I w -> I (state_of (run_crawl fuel url bu w)).
Proof.
  induction fuel as [|fuel IH]; intros url bu w Ha Hw; simpl; [done|].
  destruct (decide (url ∈ visited w)) as [Hin|Hin]; [done|].
  apply try_except_invariant.
  pose proof (I_get url bu w Ha Hw Hin) as Hf. fold (fetching url w).
  destruct (requests_get url) as [r|e] eqn:Hget; [|done].
  destruct (is_html r) eqn:Hhtml; simpl; [|by apply I_warning].
  destruct (BeautifulSoup (text r)) as [soup|e] eqn:Hsoup; [|done].
  apply for_links_invariant.
  - intros link href Hr w' Hw'. apply IH; [by eapply A_link | done].
  - by eapply I_index.
Qed.

End Invariant.

(** *** The history stays consistent *)

Lemma consistent_new : consistent requests_get new_crawler.
Proof.
  split; simpl.
  - apply NoDup_nil_2.
  - apply NoDup_nil_2.
  - intros u. split; [intros H; inversion H | set_solver].
  - intros u H. inversion H.
  - apply well_ordered_nil.
  - apply NoDup_nil_2.
  - intros u H. inversion H.
  - intros u H. inversion H.
Qed.

Lemma consistent_record (e : event) (w : WebCrawler) :
  match e with EvWarning _ | EvError _ _ => True | _ => False end ->
  consistent requests_get w -> consistent requests_get (record e w).
Proof.
  intros He [].
  destruct e; try done; split; simpl; try done.
  - apply well_ordered_cons; [done | exact I].
  - intros u Hu. right. auto.
  - intros u [Hu|Hu]%elem_of_cons; [discriminate | auto].
  - apply well_ordered_cons; [done | exact I].
  - intros u Hu. right. auto.
  - intros u [Hu|Hu]%elem_of_cons; [discriminate | auto].
Qed.

Lemma consistent_fetching (url : string) (w : WebCrawler) :
  consistent requests_get w -> url ∉ visited w ->
  consistent requests_get (fetching url w).
Proof.
  intros [Hadds Hgets Hav Hgv Hord Hkeys Hki Hih] Hin. split; simpl.
  - apply NoDup_cons. split; [by rewrite Hav | done].
  - apply NoDup_cons. split; [intros H; by apply Hgv in H | done].
  - intros u. rewrite elem_of_cons, Hav, elem_of_union, elem_of_singleton. done.
  - intros u [->|Hu]%elem_of_cons; apply elem_of_union; [left|right].
    + by apply elem_of_singleton.
    + by apply Hgv.
  - apply well_ordered_cons; [apply well_ordered_cons; [done | exact I]|].
    by eexists.
  - done.
  - intros u Hu. right. right. auto.
  - intros u [Hu|[Hu|Hu]%elem_of_cons]%elem_of_cons; [discriminate | discriminate | auto].
Qed.

Lemma consistent_index_set (url txt : string) (w : WebCrawler) (r : Response) :
  consistent requests_get (fetching url w) ->
  requests_get url = Ok r -> is_html r = true ->
  consistent requests_get (index_set url txt (fetching url w)).
Proof.
  intros [Hadds Hgets Hav Hgv Hord Hkeys Hki Hih] Hget Hhtml.
  split; simpl in *; try done.
  - apply well_ordered_cons; [done | by eexists].
  - by apply NoDup_keys_dict_set.
  - intros u [->|Hu]%elem_of_keys_dict_set; [left | right; auto].
  - intros u [Hu|Hu]%elem_of_cons; [|auto].
    injection Hu as ->. eauto.
Qed.

Lemma crawl_consistent (fuel : nat) (url : string) (bu : option string) (w : WebCrawler) :
  consistent requests_get w ->
  consistent requests_get (state_of (run_crawl fuel url bu w)).
Proof.
  apply (crawl_invariant (fun _ _ => True) (consistent requests_get)); try done.
  - intros u _ w' _ Hc Hin. by apply consistent_fetching.
  - intros u e w' Hc. by apply consistent_record.
  - intros u w' Hc. by apply consistent_record.
  - intros u w' r soup _ Hc Hget Hhtml _. by eapply consistent_index_set.
Qed.

(** C2. In every run of [crawl] on a new crawler, each URL is added to
    [visited] at most once, [requests.get] is called at most once on each URL
    (whatever the pages link to, themselves and each other included), the URLs
    of [visited] are those that were added, and every call of [requests.get]
    on a URL comes right after that URL was added to [visited]. *)
Theorem visited_once_before_fetch (fuel : nat) (seed : string) (base_url : option string) :
  let w := state_of (run_crawl fuel seed base_url new_crawler) in
  NoDup (adds (trace w))
  /\ NoDup (gets (trace w))
  /\ (forall u, u ∈ visited w <-> u ∈ adds (trace w))
  /\ (forall later earlier u,
        trace w = later ++ EvGet u :: earlier -> exists l, earlier = EvAdd u :: l).
Proof.
  intros w.
  destruct (crawl_consistent fuel seed base_url new_crawler consistent_new)
    as [Hadds Hgets Hvisited _ Hordered _ _ _].
  fold w in Hadds, Hgets, Hvisited, Hordered.
  split; [done|]. split; [done|]. split.
  - intros u. symmetry. apply Hvisited.
  - intros later earlier u Htr. exact (Hordered later (EvGet u) earlier Htr).
Qed.

(** C3. In every run of [crawl] on a new crawler, a key of the index is in
    [visited], [requests.get] answered for it with a content type that has
    [html] in it, and it was added to [visited], then fetched, then indexed;
    so a URL for which [requests.get] raises, or answers with another content
    type, is no key of the index, while every URL [requests.get] was called on
    is in [visited]. *)
Theorem index_keys_fetched_html (fuel : nat) (seed : string) (base_url : option string) :
  let w := state_of (run_crawl fuel seed base_url new_crawler) in
  (forall u, u ∈ keys (index w) ->
     u ∈ visited w
     /\ (exists r, requests_get u = Ok r /\ is_html r = true)
     /\ exists later earlier,
          trace w = later ++ EvIndex u :: EvGet u :: EvAdd u :: earlier)
  /\ (forall u,
        (exists e, requests_get u = Exc e)
        \/ (exists r, requests_get u = Ok r /\ is_html r = false) ->
        u ∉ keys (index w))
  /\ (forall u, u ∈ gets (trace w) -> u ∈ visited w).
Proof.
  intros w.
  destruct (crawl_consistent fuel seed base_url new_crawler consistent_new)
    as [_ _ adds_visited0 gets_visited0 trace_ordered0 _ keys_indexed0 indexed_html0].
  fold w in adds_visited0, gets_visited0, trace_ordered0, keys_indexed0, indexed_html0.
  split; [|split]; [| |done].
  - intros u Hu. apply keys_indexed0 in Hu.
    destruct (list_elem_of_split _ _ Hu) as (later & l2 & Htr).
    destruct (trace_ordered0 later (EvIndex u) l2 Htr) as [l3 ->].
    assert (Htr' : trace w = (later ++ [EvIndex u]) ++ EvGet u :: l3)
      by (by rewrite <- app_assoc).
    destruct (trace_ordered0 _ (EvGet u) l3 Htr') as [l4 ->].
    split; [|split; [by apply indexed_html0 | by exists later, l4]].
    apply adds_visited0, elem_of_adds. rewrite Htr.
    apply elem_of_app. right. right. right. left.
  - intros u Hbad Hu. apply keys_indexed0, indexed_html0 in Hu as (r & Hget & Hhtml).
    destruct Hbad as [[e He] | (r' & Hget' & Hhtml')]; congruence.
Qed.

(** *** The base of the run *)

Lemma for_links_ext (f g : string -> option string -> WebCrawler -> outcome)
    (base : string) (links : list (option string)) :
  (forall href w, f href (Some base) w = g href (Some base) w) ->
  forall w, links_loop f base links w = links_loop g base links w.
Proof.
  intros Hfg. induction links as [|link rest IH]; intros w; simpl; [done|].
  destruct (resolve base link); [done| |done].
  rewrite Hfg. destruct (g href (Some base) w); [apply IH|done|done].
Qed.

Lemma crawl_with_base (b : string) (fuel : nat) : forall url w,
  PyStr.truthy b = true ->
  run_crawl fuel url (Some b) w
  = crawl_from requests_get BeautifulSoup urlparse_netloc urljoin b fuel url w.
Proof.
  induction fuel as [|fuel IH]; intros url w Hb; simpl; [done|].
  rewrite Hb.
  destruct (decide (url ∈ visited w)); [done|].
  destruct (requests_get url) as [r|e]; [|done].
  destruct (negb (is_html r)); [done|].
  destruct (BeautifulSoup (text r)) as [soup|e]; [|done].
  f_equal. apply for_links_ext. intros href w'. by apply IH.
Qed.

(** C9. A run [crawl(seed)] is the run that takes the seed as the base at
    every depth: each call of the recursion resolves the links of its page
    against the seed and compares their network location with the seed's,
    never with the page's own URL.  (The seed is a URL; for the empty string
    [requests.get] raises.) *)
Theorem base_is_seed_at_every_depth (fuel : nat) (seed : string) (w : WebCrawler) :
  (seed = EmptyString -> exists e, requests_get seed = Exc e) ->
  run_crawl fuel seed None w
  = crawl_from requests_get BeautifulSoup urlparse_netloc urljoin seed fuel seed w.
Proof.
  intros Hseed. destruct fuel as [|fuel]; simpl; [done|].
  destruct (decide (seed ∈ visited w)); [done|].
  destruct seed as [|c seed].
  - destruct Hseed as [e ->]; done.
  - destruct (requests_get (String c seed)) as [r|e]; [|done].
    destruct (negb (is_html r)); [done|].
    destruct (BeautifulSoup (text r)) as [soup|e]; [|done].
    f_equal. apply for_links_ext. intros href w'. by apply crawl_with_base.
Qed.

(** *** The scope of the run *)

Lemma resolve_link_crawl (base : string) (link : option string) (href : string) :
  resolve base link = LinkCrawl href ->
  exists n, urlparse_netloc href = Ok n /\ urlparse_netloc base = Ok n.
Proof.
  unfold resolve_link. destruct link as [h|]; [|done].
  destruct (PyStr.truthy h); [|done].
  destruct (urlparse_netloc h) as [n|e]; [|done].
  destruct (if PyStr.truthy n then urljoin base h else Ok h) as [h'|e]; [|done].
  destruct (urlparse_netloc base) as [nb|e]; [|done].
  destruct (urlparse_netloc h') as [nh|e] eqn:Hh'; [|done].
  destruct (String.eqb_spec nh nb) as [->|Hne]; [|done].
  intros [= <-]. by exists nb.
Qed.

Lemma crawl_same_netloc (fuel : nat) (seed : string) :
  forall u, u ∈ visited (state_of (run_crawl fuel seed None new_crawler)) ->
    urlparse_netloc u = urlparse_netloc seed.
Proof.
  apply (crawl_invariant
    (fun url bu => urlparse_netloc (PyStr.or_else bu url) = urlparse_netloc seed
                   /\ urlparse_netloc url = urlparse_netloc seed)
    (fun w => forall u, u ∈ visited w -> urlparse_netloc u = urlparse_netloc seed)).
  - intros url bu link href [Hb _] (n & Hh & Hn)%resolve_link_crawl.
    assert (Hhref : urlparse_netloc href = urlparse_netloc seed) by congruence.
    split; [|done]. simpl. by destruct (PyStr.truthy _).
  - intros url bu w [_ Hu] Hw _ u. simpl.
    intros [->%elem_of_singleton | Hin]%elem_of_union; [done | by apply Hw].
  - done.
  - done.
  - done.
  - done.
  - intros u Hu. simpl in Hu. by apply not_elem_of_empty in Hu.
Qed.

(** C8. In a run [crawl(seed)] on a new crawler, a URL whose network location
    differs from the seed's is never added to [visited], never a key of the
    index, and [requests.get] is never called on it. *)
Theorem external_never_visited (fuel : nat) (seed u : string) :
  urlparse_netloc u <> urlparse_netloc seed ->
  let w := state_of (run_crawl fuel seed None new_crawler) in
  (u ∉ visited w) /\ (u ∉ keys (index w)) /\ (u ∉ gets (trace w)).
Proof.
  intros Hne w.
  assert (Hv : u ∉ visited w) by (intros Hu; by apply crawl_same_netloc in Hu).
  destruct (crawl_consistent fuel seed None new_crawler consistent_new)
    as [_ _ Hadds Hgets Hordered _ Hkeys _].
  fold w in Hadds, Hgets, Hordered, Hkeys.
  split; [done|]. split; [|by intros ?%Hgets].
  intros Hu%Hkeys.
  destruct (list_elem_of_split _ _ Hu) as (later & l2 & Htr).
  destruct (Hordered later (EvIndex u) l2 Htr) as [l3 ->].
  apply Hv, Hgets, elem_of_gets. rewrite Htr.
  apply elem_of_app. right. right. left.
Qed.

(** *** Pages that are already visited, fail, or are skipped *)

Lemma crawl_visited (fuel : nat) (url : string) (bu : option string) (w : WebCrawler) :
  url ∈ visited w -> run_crawl (S fuel) url bu w = Returned w.
Proof. intros Hin. by rewrite crawl_S, decide_True. Qed.

Lemma for_links_all_visited (fuel : nat) (base u : string) (links : list (option string))
    (w : WebCrawler) :
  u ∈ visited w ->
  (forall link, link ∈ links ->
     resolve base link = LinkCrawl u \/ resolve base link = LinkSkip) ->
  links_loop (run_crawl (S fuel)) base links w = Returned w.
Proof.
  intros Hu. induction links as [|link rest IH]; intros Hlinks; [done|].
  cbn [for_links].
  destruct (Hlinks link) as [-> | ->]; [left| |].
  - rewrite crawl_visited by done. apply IH. intros l Hl. apply Hlinks. by right.
  - apply IH. intros l Hl. apply Hlinks. by right.
Qed.

(** C6. Crawling, from a new crawler, an HTML page whose links all resolve to
    the page's own URL (or are not followed) returns as soon as the depth
    bound allows for the page and the calls on its links; [requests.get] is
    called on the URL once, and [visited] holds this one URL. *)
Theorem self_link_terminates (fuel : nat) (u : string) (r : Response) (soup : Soup) :
  requests_get u = Ok r -> is_html r = true -> BeautifulSoup (text r) = Ok soup ->
  (forall link, link ∈ find_all_a soup ->
     resolve u link = LinkCrawl u \/ resolve u link = LinkSkip) ->
  let w := index_set u (get_text soup) (fetching u new_crawler) in
  run_crawl (S (S fuel)) u None new_crawler = Returned w
  /\ gets (trace w) = [u]
  /\ visited w = {[u]}
  /\ size (visited w) = 1.
Proof.
  intros Hget Hhtml Hsoup Hlinks w.
  assert (Hv : visited w = {[u]}).
  { unfold w. rewrite visited_index_set, visited_fetching, visited_new.
    apply union_empty_r_L. }
  split; [|split; [done|split; [done|]]].
  - rewrite crawl_S, decide_False by (rewrite visited_new; apply not_elem_of_empty).
    rewrite Hget, Hhtml, Hsoup. cbn [negb]. fold w.
    rewrite (for_links_all_visited fuel _ u); [done| |done].
    rewrite Hv. by apply elem_of_singleton.
  - rewrite Hv. apply size_singleton.
Qed.

Lemma crawl_failure (fuel : nat) (url : string) (bu : option string) (w : WebCrawler)
    (e : exn) :
  url ∉ visited w -> failure requests_get BeautifulSoup url = Some e ->
  run_crawl (S fuel) url bu w = Returned (record (EvError url e) (fetching url w)).
Proof.
  intros Hin Hfail. rewrite crawl_S, decide_False by done.
  unfold failure in Hfail.
  destruct (requests_get url) as [r|e']; [|by injection Hfail as ->].
  destruct (is_html r); [|done]. cbn [negb].
  destruct (BeautifulSoup (text r)) as [soup|e']; [done|by injection Hfail as ->].
Qed.

Lemma crawl_not_html (fuel : nat) (url : string) (bu : option string) (w : WebCrawler)
    (r : Response) :
  url ∉ visited w -> requests_get url = Ok r -> is_html r = false ->
  run_crawl (S fuel) url bu w = Returned (record (EvWarning url) (fetching url w)).
Proof.
  intros Hin Hget Hhtml. rewrite crawl_S, decide_False by done.
  by rewrite Hget, Hhtml.
Qed.

Lemma crawl_never_raises (fuel : nat) (url : string) (bu : option string)
    (w w' : WebCrawler) (e : exn) :
  run_crawl fuel url bu w <> Raised e w'.
Proof.
  destruct fuel as [|fuel]; [done|]. rewrite crawl_S.
  destruct (decide (url ∈ visited w)); [done|].
  unfold try_except. by destruct (match requests_get url with Ok _ => _ | Exc _ => _ end).
Qed.

Lemma crawl_indexes_html (fuel : nat) (url : string) (bu : option string) (w : WebCrawler)
    (r : Response) (soup : Soup) :
  url ∉ visited w -> requests_get url = Ok r -> is_html r = true ->
  BeautifulSoup (text r) = Ok soup ->
  url ∈ keys (index (state_of (run_crawl (S fuel) url bu w))).
Proof.
  intros Hin Hget Hhtml Hsoup. rewrite crawl_S, decide_False by done.
  rewrite Hget, Hhtml, Hsoup. cbn [negb].
  apply (try_except_invariant (fun w => url ∈ keys (index w))); [done|].
  apply (for_links_invariant (fun w => url ∈ keys (index w))).
  - intros link href _ w' Hw'.
    apply (crawl_invariant (fun _ _ => True) (fun w => url ∈ keys (index w))); try done.
    intros u w0 r0 soup0 _ Hk _ _ _. simpl in *.
    apply elem_of_keys_dict_set. by right.
  - simpl. apply elem_of_keys_dict_set. by left.
Qed.

(** C10. A response counts as HTML exactly when the value of its
    [Content-Type] header (the empty string when the header is missing)
    contains [html] in letters of either case, that is, when its lower-cased
    value has [html] as a substring: [text/html] and [TEXT/HTML; charset=UTF-8]
    count, [application/pdf] and a missing header do not.  The page of a
    response that counts as HTML is indexed when it parses; a response that
    does not count as HTML, one without the header in particular whatever its
    body, is skipped with a warning, the index unchanged and none of its
    links followed. *)
Theorem html_iff_content_type_has_html :
  (forall r, is_html r = true
     <-> Case.occurs_ignoring_case "html" (default EmptyString (content_type r)))
  /\ (forall r, is_html r = true
     <-> exists pre post,
           PyStr.lower (default EmptyString (content_type r)) = pre +:+ "html" +:+ post)
  /\ (forall body,
        is_html {| content_type := Some "text/html"; text := body |} = true
        /\ is_html {| content_type := Some "TEXT/HTML; charset=UTF-8"; text := body |} = true
        /\ is_html {| content_type := Some "application/xHtml+xml"; text := body |} = true
        /\ is_html {| content_type := Some "application/pdf"; text := body |} = false
        /\ is_html {| content_type := Some "text/htm"; text := body |} = false
        /\ is_html {| content_type := None; text := body |} = false)
  /\ (forall fuel url bu w r,
        url ∉ visited w -> requests_get url = Ok r -> is_html r = false ->
        run_crawl (S fuel) url bu w = Returned (record (EvWarning url) (fetching url w))
        /\ index (record (EvWarning url) (fetching url w)) = index w
        /\ trace (record (EvWarning url) (fetching url w))
           = EvWarning url :: EvGet url :: EvAdd url :: trace w)
  /\ (forall fuel url bu w r soup,
        url ∉ visited w -> requests_get url = Ok r -> is_html r = true ->
        BeautifulSoup (text r) = Ok soup ->
        url ∈ keys (index (state_of (run_crawl (S fuel) url bu w)))).
Proof.
  split; [|split; [|split; [|split]]].
  - intros r. unfold is_html.
    change "html"%string with (PyStr.lower "html").
    apply contains_lower_ignoring_case.
  - intros r. apply PyStrFacts.contains_spec.
  - intros body. repeat split; vm_compute; reflexivity.
  - intros fuel url bu w r Hin Hget Hhtml.
    split; [by apply (crawl_not_html _ _ _ _ r) | done].
  - intros fuel url bu w r soup. apply crawl_indexes_html.
Qed.

Lemma crawl_none (fuel : nat) (url : string) (w : WebCrawler) :
  run_crawl fuel url None w = run_crawl fuel url (Some url) w.
Proof.
  destruct fuel as [|fuel]; [done|]. rewrite !crawl_S.
  replace (PyStr.or_else (Some url) url) with (PyStr.or_else None url); [done|].
  simpl. by destruct (PyStr.truthy url).
Qed.

End CrawlerFacts.

(** ** The scenarios *)

(** C1. A relative link is not followed.  Whatever the URL functions are, an
    [href] without a network location is compared as it is with a base that
    has one, and skipped; on the site whose seed page links to [/about] and to
    another site, the run returns with the seed alone in [visited]:
    [https://example.com/about] is never visited. *)
Theorem relative_link_not_followed :
  (forall netloc join base href nb,
     PyStr.truthy href = true -> netloc href = Ok EmptyString ->
     netloc base = Ok nb -> nb <> EmptyString ->
     resolve_link netloc join base (Some href) = LinkSkip)
  /\ resolve_link Urllib.netloc Urllib.urljoin seed_url (Some "/about") = LinkSkip
  /\ exists w, Web.run AboutSite.pages AboutSite.docs 5 seed_url = Returned w
       /\ visited w = {[seed_url]}
       /\ ("https://example.com/about" ∉ visited w)
       /\ gets (trace w) = [seed_url].
Proof.
  split; [|split].
  - intros netloc join base href nb Hh Hn Hb Hnb. unfold resolve_link.
    rewrite Hh, Hn. cbn [PyStr.truthy]. rewrite Hn, Hb.
    destruct (String.eqb_spec EmptyString nb) as [<-|_]; done.
  - vm_compute. reflexivity.
  - eexists. split; [vm_compute; reflexivity|]. split; [vm_compute; reflexivity|].
    split; [|vm_compute; reflexivity].
    vm_compute. intros H. discriminate H.
Qed.

(** C5. A link with a misspelt scheme is crawled, and a link on which
    [urlparse] raises ends the loop of its page.  On the site whose seed page
    links to [htp://example.com], that address parses, has the network
    location of the seed, and is added to [visited] and fetched.  On the site
    whose seed page links to [http://[::1] and then to [/next] of the site,
    [urlparse] raises on the first link: the error is logged for the seed page
    and the second link is never visited. *)
Theorem malformed_link_not_dropped :
  (resolve_link Urllib.netloc Urllib.urljoin seed_url (Some "htp://example.com")
   = LinkCrawl "htp://example.com"
   /\ exists w, Web.run BrokenLinkSite.pages BrokenLinkSite.docs 5 seed_url = Returned w
        /\ "htp://example.com" ∈ visited w
        /\ gets (trace w) = ["htp://example.com"; seed_url])
  /\ (resolve_link Urllib.netloc Urllib.urljoin seed_url (Some "http://[::1")
      = LinkRaise (Exception "Invalid IPv6 URL")
      /\ resolve_link Urllib.netloc Urllib.urljoin seed_url
           (Some "https://example.com/next")
         = LinkCrawl "https://example.com/next"
      /\ exists w, Web.run BracketSite.pages BracketSite.docs 5 seed_url = Returned w
           /\ EvError seed_url (Exception "Invalid IPv6 URL") ∈ trace w
           /\ visited w = {[seed_url]}
           /\ ("https://example.com/next" ∉ visited w)).
Proof.
  split.
  - split; [vm_compute; reflexivity|].
    eexists. split; [vm_compute; reflexivity|]. split; [|vm_compute; reflexivity].
    vm_compute. reflexivity.
  - split; [vm_compute; reflexivity|]. split; [vm_compute; reflexivity|].
    eexists. split; [vm_compute; reflexivity|].
    split; [left|]. split; [vm_compute; reflexivity|].
    vm_compute. intros H. discriminate H.
Qed.


(** ** The theorems at work on the scenarios *)

(** C2 on the site whose pages link to each other: three URLs are added to
    [visited] and fetched, each once, however the pages refer to each other. *)
Lemma visited_once_before_fetch_witness :
  let w := state_of (Web.run RingSite.pages RingSite.docs 5 seed_url) in
  NoDup (adds (trace w))
  /\ NoDup (gets (trace w))
  /\ gets (trace w) = ["https://example.com/b"; "https://example.com/a"; seed_url].
Proof.
  destruct (visited_once_before_fetch (Web.get RingSite.pages) (Web.soup RingSite.docs)
              Urllib.netloc Urllib.urljoin 5 seed_url None) as (Ha & Hg & _).
  split; [exact Ha|]. split; [exact Hg|]. vm_compute. reflexivity.
Defined.

(** C3 on the PDF seed: it is visited and is no key of the index. *)
Lemma index_keys_fetched_html_witness :
  let w := state_of (Web.run PdfSite.pages [] 5 seed_url) in
  (seed_url ∉ keys (index w)) /\ seed_url ∈ visited w.
Proof.
  destruct (index_keys_fetched_html (Web.get PdfSite.pages) (Web.soup [])
              Urllib.netloc Urllib.urljoin 5 seed_url None) as (_ & Hbad & Hgot).
  split.
  - apply Hbad. right. eexists. split; vm_compute; reflexivity.
  - apply Hgot. vm_compute. left.
Defined.

(** C6 on the page that links to itself. *)
Lemma self_link_terminates_witness :
  let w := index_set seed_url "Go to Example" (fetching seed_url new_crawler) in
  Web.run LoopSite.pages LoopSite.docs 2 seed_url = Returned w
  /\ gets (trace w) = [seed_url]
  /\ visited w = {[seed_url]}
  /\ size (visited w) = 1.
Proof.
  apply (self_link_terminates (Web.get LoopSite.pages) (Web.soup LoopSite.docs)
           Urllib.netloc Urllib.urljoin 0 seed_url (Web.html_page LoopSite.home)
           {| get_text := "Go to Example"; find_all_a := [Some "https://example.com"] |}).
  - vm_compute. reflexivity.
  - vm_compute. reflexivity.
  - vm_compute. reflexivity.
  - intros link Hin. apply list_elem_of_singleton in Hin. subst link.
    left. vm_compute. reflexivity.
Defined.

(** C8 on the site whose pages link to [other.org]. *)
Lemma external_never_visited_witness :
  let w := state_of (Web.run RingSite.pages RingSite.docs 5 seed_url) in
  ("https://other.org/" ∉ visited w)
  /\ ("https://other.org/" ∉ keys (index w))
  /\ ("https://other.org/" ∉ gets (trace w)).
Proof.
  apply (external_never_visited (Web.get RingSite.pages) (Web.soup RingSite.docs)
           Urllib.netloc Urllib.urljoin 5 seed_url "https://other.org/").
  vm_compute. intros H. discriminate H.
Defined.

(** C9 on the same site, three pages deep. *)
Lemma base_is_seed_at_every_depth_witness :
  Web.run RingSite.pages RingSite.docs 5 seed_url
  = crawl_from (Web.get RingSite.pages) (Web.soup RingSite.docs)
      Urllib.netloc Urllib.urljoin seed_url 5 seed_url new_crawler
  /\ seed_url <> EmptyString.
Proof.
  split; [|discriminate].
  apply (base_is_seed_at_every_depth (Web.get RingSite.pages) (Web.soup RingSite.docs)
           Urllib.netloc Urllib.urljoin 5 seed_url new_crawler).
  intros H. discriminate H.
Defined.

(** C10 on two seeds: the one that answers without a [Content-Type] header
    is skipped with a warning, whatever its body; the one whose header is in
    capital letters is indexed. *)
Lemma html_iff_content_type_has_html_witness :
  (Web.run BareSite.pages BareSite.docs 5 seed_url
   = Returned (record (EvWarning seed_url) (fetching seed_url new_crawler))
   /\ index (record (EvWarning seed_url) (fetching seed_url new_crawler)) = [])
  /\ Case.occurs_ignoring_case "html" "TEXT/HTML; charset=UTF-8"
  /\ seed_url ∈ keys (index (state_of (Web.run CapsSite.pages CapsSite.docs 5 seed_url)))
  /\ index (state_of (Web.run CapsSite.pages CapsSite.docs 5 seed_url))
     = [(seed_url, "Loud")].
Proof.
  destruct (html_iff_content_type_has_html (Web.get BareSite.pages)
              (Web.soup BareSite.docs) Urllib.netloc Urllib.urljoin)
    as (_ & _ & Hknown & Hskip & _).
  destruct (html_iff_content_type_has_html (Web.get CapsSite.pages)
              (Web.soup CapsSite.docs) Urllib.netloc Urllib.urljoin)
    as (Hcase & _ & Hcaps & _ & Hindexed).
  split; [|split; [|split]].
  - destruct (Hskip 4 seed_url None new_crawler
                {| content_type := None; text := BareSite.home |}) as (Hrun & Hidx & _).
    + vm_compute. intros H. discriminate H.
    + vm_compute. reflexivity.
    + apply Hknown.
    + split; [exact Hrun | exact Hidx].
  - apply (Hcase {| content_type := Some "TEXT/HTML; charset=UTF-8"; text := CapsSite.home |}).
    apply Hcaps.
  - apply (Hindexed 4 seed_url None new_crawler
             {| content_type := Some "TEXT/HTML; charset=UTF-8"; text := CapsSite.home |}
             {| get_text := "Loud"; find_all_a := [] |}).
    + vm_compute. intros H. discriminate H.
    + vm_compute. reflexivity.
    + apply Hcaps.
    + vm_compute. reflexivity.
  - vm_compute. reflexivity.
Defined.

(** C4 on an index of three pages, one of them in Greek: the keyword in
    capital letters finds the page that has it in small letters, and the
    empty keyword finds every page. *)
Lemma search_lowered_substring_witness :
  let d : list (string * string) :=
    [("a", "Hello World"); ("b", "ΑΣ"); ("c", "hello")] in
  lowers_ascii Unicode.lower
  /\ "a" ∈ search_with Unicode.lower d "WORLD"
  /\ search_with Unicode.lower d "WORLD" = ["a"]
  /\ search_with Unicode.lower d "WORLD" `sublist_of` keys d
  /\ search_with Unicode.lower d EmptyString = ["a"; "b"; "c"].
Proof.
  intros d.
  destruct (search_lowered_substring Unicode.lower unicode_lowers_ascii d "WORLD")
    as (_ & Hascii & Hsub & _ & Hempty & _).
  split; [exact unicode_lowers_ascii|]. split; [|split; [|split]].
  - apply Hascii.
    + reflexivity.
    + intros txt Hin.
      apply elem_of_cons in Hin as [Heq | Hin].
      { injection Heq as ->. reflexivity. }
      apply elem_of_cons in Hin as [Heq | Hin]; [discriminate Heq|].
      apply elem_of_cons in Hin as [Heq | Hin]; [discriminate Heq|].
      by apply elem_of_nil in Hin.
    + exists "Hello World". split; [left|].
      exists "Hello ", "World", EmptyString. split; [reflexivity|].
      apply lower_same_nocase. reflexivity.
  - vm_compute. reflexivity.
  - exact Hsub.
  - rewrite Hempty. reflexivity.
Defined.

(** * Further properties of the crawler, the search and the program *)

Lemma dict_set_head (k v : string) (d : list (string * string)) :
  (k, v) ∈ dict_set k v d.
Proof.
  induction d as [|[k' v'] d IH]; cbn [dict_set]; [left|].
  destruct (String.eqb k' k); [left | by right].
Qed.

Lemma dict_set_other (u t k v : string) (d : list (string * string)) :
  u <> k -> (u, t) ∈ d -> (u, t) ∈ dict_set k v d.
Proof.
  intros Hu. induction d as [|[k' v'] d IH]; cbn [dict_set]; [by intros ?%elem_of_nil|].
  intros [Heq|Hin]%elem_of_cons.
  - injection Heq as <- <-. destruct (String.eqb_spec u k); [done | left].
  - destruct (String.eqb k' k); right; [done | by apply IH].
Qed.

Lemma elem_of_keys (u : string) (d : list (string * string)) :
  u ∈ keys d <-> exists t, (u, t) ∈ d.
Proof.
  unfold keys. rewrite list_elem_of_fmap. split.
  - intros ([u' t] & -> & Hin). by exists t.
  - intros (t & Hin). by exists (u, t).
Qed.

Lemma elem_of_dict_set (u t k v : string) (d : list (string * string)) :
  NoDup (keys d) ->
  (u, t) ∈ dict_set k v d <-> (u = k /\ t = v) \/ (u <> k /\ (u, t) ∈ d).
Proof.
  intros Hnd. split.
  - induction d as [|[k' v'] d IH]; cbn [dict_set].
    + intros [= -> ->]%list_elem_of_singleton. by left.
    + rewrite keys_cons in Hnd. apply NoDup_cons in Hnd as [Hk' Hnd].
      destruct (String.eqb_spec k' k) as [->|Hne].
      * intros [[= -> ->]|Hin]%elem_of_cons; [by left|].
        right. split; [|by right].
        intros ->. apply Hk', elem_of_keys. by exists t.
      * intros [[= -> ->]|Hin]%elem_of_cons; [right; split; [done | left]|].
        destruct (IH Hnd Hin) as [Heq | [Hu Hd]]; [by left | right; split; [done | by right]].
  - intros [[-> ->] | [Hu Hin]]; [apply dict_set_head | by apply dict_set_other].
Qed.

Section CrawlerMore.

Variable requests_get : string -> result Response.
Variable BeautifulSoup : string -> result Soup.
Variable urlparse_netloc : string -> result string.
Variable urljoin : string -> string -> result string.

Local Abbreviation run_crawl := (crawl requests_get BeautifulSoup urlparse_netloc urljoin).
Local Abbreviation resolve := (resolve_link urlparse_netloc urljoin).
Local Abbreviation links_loop := (for_links urlparse_netloc urljoin).
Local Abbreviation fails := (failure requests_get BeautifulSoup).
Local Abbreviation page := (page_soup requests_get BeautifulSoup).
Local Abbreviation is_consistent := (consistent requests_get).
Local Abbreviation index_is_pages := (index_is_pages requests_get BeautifulSoup).
Local Abbreviation error_cause :=
  (error_cause requests_get BeautifulSoup urlparse_netloc urljoin).

Lemma page_soup_Some (url : string) (soup : Soup) :
  page url = Some soup <->
  exists r, requests_get url = Ok r /\ is_html r = true /\ BeautifulSoup (text r) = Ok soup.
Proof.
  unfold page_soup. split.
  - destruct (requests_get url) as [r|e]; [|done].
    destruct (is_html r) eqn:Hh; [|done].
    destruct (BeautifulSoup (text r)) as [s|e] eqn:Hs; [|done].
    intros [= ->]. by exists r.
  - intros (r & -> & -> & ->). done.
Qed.

Lemma failure_no_page (url : string) (e : exn) : fails url = Some e -> page url = None.
Proof.
  unfold failure, page_soup. destruct (requests_get url) as [r|e']; [|done].
  destruct (is_html r); [|done]. by destruct (BeautifulSoup (text r)).
Qed.

(** ** What a run keeps *)

Lemma grown_refl (w : WebCrawler) : grown w w.
Proof. split; [done|]. split; [done|]. done. Qed.

Lemma grown_record (e : event) (w w' : WebCrawler) : grown w w' -> grown w (record e w').
Proof. intros (Hv & Hk & Ht). split; [done|]. split; [done|]. by apply suffix_cons_r. Qed.

Lemma grown_fetching (url : string) (w w' : WebCrawler) :
  grown w w' -> grown w (fetching url w').
Proof.
  intros (Hv & Hk & Ht). split; [|split; [done|]].
  - rewrite visited_fetching. etrans; [done | apply union_subseteq_r].
  - by do 2 apply suffix_cons_r.
Qed.

Lemma grown_index_set (url txt : string) (w w' : WebCrawler) :
  grown w w' -> grown w (index_set url txt w').
Proof.
  intros (Hv & Hk & Ht). split; [done|]. split; [|by apply suffix_cons_r].
  intros u Hu. apply elem_of_keys_dict_set. right. by apply Hk.
Qed.

Lemma crawl_grown (fuel : nat) (url : string) (bu : option string) (w0 w : WebCrawler) :
  grown w0 w -> grown w0 (state_of (run_crawl fuel url bu w)).
Proof.
  apply (crawl_invariant requests_get BeautifulSoup urlparse_netloc urljoin
           (fun _ _ => True) (grown w0)); try done.
  - intros u _ w' _ Hg _. by apply grown_fetching.
  - intros u e w' Hg. by apply grown_record.
  - intros u w' Hg. by apply grown_record.
  - intros u w' r soup _ Hg _ _ _. by apply grown_index_set.
Qed.

(** X1. A call of [crawl] only adds: every URL of [visited] stays in it,
    every key of the index stays a key, and the effects already performed
    remain, in their order, the oldest part of the history. *)
Theorem crawl_only_grows (fuel : nat) (url : string) (base_url : option string)
    (w : WebCrawler) :
  let w' := state_of (run_crawl fuel url base_url w) in
  visited w ⊆ visited w'
  /\ (forall u, u ∈ keys (index w) -> u ∈ keys (index w'))
  /\ trace w `suffix_of` trace w'.
Proof. intros w'. apply crawl_grown, grown_refl. Qed.

Lemma crawl_visits_url (fuel : nat) (url : string) (bu : option string) (w : WebCrawler) :
  url ∈ visited (state_of (run_crawl (S fuel) url bu w)).
Proof.
  rewrite crawl_S. destruct (decide (url ∈ visited w)) as [Hin|Hin]; [done|].
  assert (Hf : url ∈ visited (fetching url w)).
  { rewrite visited_fetching. apply elem_of_union. left. by apply elem_of_singleton. }
  apply (try_except_invariant (fun w => url ∈ visited w)); [done|].
  destruct (requests_get url) as [r|e]; [|done].
  destruct (negb (is_html r)); [done|].
  destruct (BeautifulSoup (text r)) as [soup|e]; [|done].
  apply (for_links_invariant urlparse_netloc urljoin (fun w => url ∈ visited w)); [|done].
  intros link href _ w' Hw'.
  by apply (crawl_grown fuel href _ w' w' (grown_refl w')).
Qed.

(** X2. Crawling again is free: after a call [crawl(url)] on any crawler,
    whatever it reached within the depth bound, a further call on the same
    URL, whatever its base, returns at once and leaves the crawler, its
    history of requests included, as it is.  The same holds for any URL that
    is in [visited]. *)
Theorem crawl_again_is_noop (fuel fuel' : nat) (url : string) (bu bu' : option string)
    (w : WebCrawler) :
  let w' := state_of (run_crawl (S fuel) url bu w) in
  run_crawl (S fuel') url bu' w' = Returned w'
  /\ forall u bu'', u ∈ visited w' -> run_crawl (S fuel') u bu'' w' = Returned w'.
Proof.
  intros w'. split.
  - apply crawl_visited, crawl_visits_url.
  - intros u bu'' Hu. by apply crawl_visited.
Qed.

(** ** A proof rule by pages

    [A] holds of the arguments of every call; [I] holds of the state between
    the steps of a run: a URL that fails, a URL that is skipped, a page that is
    indexed, a link loop that an exception ends. *)
Section PageInvariant.

Variable A : string -> option string -> Prop.
Variable I : WebCrawler -> Prop.

Hypothesis A_link : forall url bu soup link href,
  A url bu -> page url = Some soup -> link ∈ find_all_a soup ->
  resolve (PyStr.or_else bu url) link = LinkCrawl href ->
  A href (Some (PyStr.or_else bu url)).
Hypothesis I_fail : forall url bu w e,
  A url bu -> I w -> url ∉ visited w -> fails url = Some e ->
  I (record (EvError url e) (fetching url w)).
Hypothesis I_skip : forall url bu w r,
  A url bu -> I w -> url ∉ visited w -> requests_get url = Ok r -> is_html r = false ->
  I (record (EvWarning url) (fetching url w)).
Hypothesis I_page : forall url bu w soup,
  A url bu -> I w -> url ∉ visited w -> page url = Some soup ->
  I (index_set url (get_text soup) (fetching url w)).
Hypothesis I_link_error : forall url bu w soup link e,
  A url bu -> I w -> url ∈ visited w -> page url = Some soup ->
  link ∈ find_all_a soup -> resolve (PyStr.or_else bu url) link = LinkRaise e ->
  I (record (EvError url e) w).

Lemma for_links_outcome (self_crawl : string -> option string -> WebCrawler -> outcome)
    (J : WebCrawler -> Prop) (base : string) (links : list (option string)) :
  (forall href w e w', self_crawl href (Some base) w <> Raised e w') ->
  (forall link href, link ∈ links -> resolve base link = LinkCrawl href ->
     forall w, J w -> J (state_of (self_crawl href (Some base) w))) ->
  forall w, J w ->
    J (state_of (links_loop self_crawl base links w))
    /\ forall e w', links_loop self_crawl base links w = Raised e w' ->
         exists link, link ∈ links /\ resolve base link = LinkRaise e.
Proof.
  intros Hnr. induction links as [|link rest IH]; intros Hself w Hw; cbn [for_links].
  - split; [done|]. intros e w' [=].
  - assert (Hrest : forall l href, l ∈ rest -> resolve base l = LinkCrawl href ->
      forall w, J w -> J (state_of (self_crawl href (Some base) w))).
    { intros l href Hl. apply Hself. by right. }
    destruct (resolve base link) as [|href|e] eqn:Hr.
    + destruct (IH Hrest w Hw) as [HJ Hraise]. split; [done|].
      intros e w' Hl. destruct (Hraise e w' Hl) as (l & Hin & Hlr).
      exists l. split; [by right | done].
    + assert (Hlink : link ∈ link :: rest) by left.
      pose proof (Hself link href Hlink Hr w Hw) as Hc.
      destruct (self_crawl href (Some base) w) as [w1|e w1|w1] eqn:Hcall.
      * destruct (IH Hrest w1 Hc) as [HJ Hraise]. split; [done|].
        intros e w' Hl. destruct (Hraise e w' Hl) as (l & Hin & Hlr).
        exists l. split; [by right | done].
      * by destruct (Hnr _ _ _ _ Hcall).
      * split; [done|]. intros e w' [=].
    + split; [done|]. intros e' w' [= <- <-]. exists link. split; [left | done].
Qed.

Lemma crawl_page_invariant (fuel : nat) : forall url bu w,
  A url bu -> I w -> I (state_of (run_crawl fuel url bu w)).
Proof.
  induction fuel as [|fuel IH]; intros url bu w Ha Hw; [done|].
  rewrite crawl_S. destruct (decide (url ∈ visited w)) as [Hin|Hin]; [done|].
  destruct (requests_get url) as [r|e] eqn:Hget.
  2:{ apply (I_fail url bu); [done..|]. unfold failure. by rewrite Hget. }
  destruct (is_html r) eqn:Hhtml; cbn [negb].
  2:{ by apply (I_skip url bu w r). }
  destruct (BeautifulSoup (text r)) as [soup|e] eqn:Hsoup.
  2:{ apply (I_fail url bu); [done..|]. unfold failure. by rewrite Hget, Hhtml, Hsoup. }
  assert (Hpage : page url = Some soup).
  { apply page_soup_Some. by exists r. }
  set (w2 := index_set url (get_text soup) (fetching url w)).
  destruct (for_links_outcome (run_crawl fuel) (fun w => I w /\ url ∈ visited w)
              (PyStr.or_else bu url) (find_all_a soup)) with (w := w2) as [[HI Hv] Hraise].
  - intros href w0 e w'.
    apply (crawl_never_raises requests_get BeautifulSoup urlparse_netloc urljoin).
  - intros link href Hlink Hr w0 [HI0 Hv0]. split.
    + apply IH; [by eapply A_link | done].
    + by apply (crawl_grown fuel href _ w0 w0 (grown_refl w0)).
  - split; [by apply (I_page url bu)|].
    unfold w2. rewrite visited_index_set, visited_fetching.
    apply elem_of_union. left. by apply elem_of_singleton.
  - destruct (links_loop (run_crawl fuel) (PyStr.or_else bu url) (find_all_a soup) w2)
      as [w'|e w'|w'] eqn:Hloop; [done| |done].
    destruct (Hraise e w' eq_refl) as (link & Hlink & Hr).
    by apply (I_link_error url bu w' soup link e).
Qed.

End PageInvariant.

(** ** The index after a run *)

Lemma not_html_no_page (url : string) (r : Response) :
  requests_get url = Ok r -> is_html r = false -> page url = None.
Proof. intros Hget Hhtml. unfold page_soup. by rewrite Hget, Hhtml. Qed.

Lemma page_no_failure (url : string) (soup : Soup) : page url = Some soup -> fails url = None.
Proof.
  intros (r & Hget & Hhtml & Hsoup)%page_soup_Some.
  unfold failure. by rewrite Hget, Hhtml, Hsoup.
Qed.

Lemma consistent_keys_visited (w : WebCrawler) (u : string) :
  is_consistent w -> u ∈ keys (index w) -> u ∈ visited w.
Proof.
  intros [_ _ _ Hgets Hord _ Hkeys _] Hu%Hkeys.
  destruct (list_elem_of_split _ _ Hu) as (later & l2 & Htr).
  destruct (Hord later (EvIndex u) l2 Htr) as [l3 ->].
  apply Hgets, elem_of_gets. rewrite Htr.
  apply elem_of_app. right. right. left.
Qed.

Lemma consistent_fail (url : string) (e : exn) (w : WebCrawler) :
  is_consistent w -> url ∉ visited w ->
  is_consistent (record (EvError url e) (fetching url w)).
Proof. intros Hc Hin. apply consistent_record; [done|]. by apply consistent_fetching. Qed.

Lemma consistent_skip (url : string) (w : WebCrawler) :
  is_consistent w -> url ∉ visited w ->
  is_consistent (record (EvWarning url) (fetching url w)).
Proof. intros Hc Hin. apply consistent_record; [done|]. by apply consistent_fetching. Qed.

Lemma consistent_page (url : string) (soup : Soup) (w : WebCrawler) :
  is_consistent w -> url ∉ visited w -> page url = Some soup ->
  is_consistent (index_set url (get_text soup) (fetching url w)).
Proof.
  intros Hc Hin (r & Hget & Hhtml & _)%page_soup_Some.
  apply (consistent_index_set requests_get url (get_text soup) w r); [|done..].
  by apply consistent_fetching.
Qed.

(** A rule for properties that need the consistency of the history. *)
Lemma crawl_consistent_invariant (P : WebCrawler -> Prop) :
  (forall url w e, is_consistent w -> P w -> url ∉ visited w -> fails url = Some e ->
     P (record (EvError url e) (fetching url w))) ->
  (forall url w r, is_consistent w -> P w -> url ∉ visited w ->
     requests_get url = Ok r -> is_html r = false ->
     P (record (EvWarning url) (fetching url w))) ->
  (forall url w soup, is_consistent w -> P w -> url ∉ visited w -> page url = Some soup ->
     P (index_set url (get_text soup) (fetching url w))) ->
  (forall url w soup link e base, is_consistent w -> P w -> url ∈ visited w ->
     page url = Some soup -> link ∈ find_all_a soup -> resolve base link = LinkRaise e ->
     P (record (EvError url e) w)) ->
  forall fuel url bu w, is_consistent w -> P w ->
    P (state_of (run_crawl fuel url bu w)).
Proof.
  intros Hfail Hskip Hpage Hlink fuel url bu w Hc Hp.
  apply (crawl_page_invariant (fun _ _ => True) (fun w => is_consistent w /\ P w));
    try done.
  - intros u _ w0 e _ [Hc0 Hp0] Hin Hf. split; [by apply consistent_fail | by apply Hfail].
  - intros u _ w0 r _ [Hc0 Hp0] Hin Hget Hhtml.
    split; [by apply consistent_skip | by apply (Hskip u w0 r)].
  - intros u _ w0 soup _ [Hc0 Hp0] Hin Hpg.
    split; [by apply consistent_page | by apply Hpage].
  - intros u ub w0 soup link e _ [Hc0 Hp0] Hin Hpg Hl Hr.
    split; [by apply consistent_record | by apply (Hlink u w0 soup link e _ Hc0 Hp0 Hin Hpg Hl Hr)].
Qed.

Lemma crawl_index_is_pages (fuel : nat) (url : string) (bu : option string) :
  index_is_pages (state_of (run_crawl fuel url bu new_crawler)).
Proof.
  apply crawl_consistent_invariant.
  - intros u w e Hc Hp Hin Hf x t. rewrite visited_record, visited_fetching.
    change (index (record (EvError u e) (fetching u w))) with (index w).
    rewrite (Hp x t), elem_of_union, elem_of_singleton. split; [intros [? ?]; auto|].
    intros [[->|Hx] Ht]; [|done]. by rewrite (failure_no_page _ _ Hf) in Ht.
  - intros u w r Hc Hp Hin Hget Hhtml x t. rewrite visited_record, visited_fetching.
    change (index (record (EvWarning u) (fetching u w))) with (index w).
    rewrite (Hp x t), elem_of_union, elem_of_singleton. split; [intros [? ?]; auto|].
    intros [[->|Hx] Ht]; [|done]. by rewrite (not_html_no_page _ _ Hget Hhtml) in Ht.
  - intros u w soup Hc Hp Hin Hpg x t. rewrite visited_index_set, visited_fetching.
    change (index (index_set u (get_text soup) (fetching u w)))
      with (dict_set u (get_text soup) (index w)).
    rewrite elem_of_dict_set by apply Hc.
    rewrite (Hp x t), elem_of_union, elem_of_singleton. split.
    + intros [[-> ->] | [Hx [Hv Ht]]]; [|auto].
      split; [by left | by rewrite Hpg].
    + intros [[->|Hx] Ht].
      * left. split; [done|]. rewrite Hpg in Ht. by injection Ht.
      * right. split; [|done]. by intros ->.
  - intros u w soup link e base Hc Hp _ _ _ _. exact Hp.
  - apply consistent_new.
  - intros x t. split; [by intros ?%elem_of_nil | by intros [?%not_elem_of_empty _]].
Qed.

(** X3. After a run from a new crawler, whatever it reached within the depth
    bound, the index maps exactly the visited URLs whose page is HTML and
    parses to the text of their page: an entry is never lost, overwritten by
    another page, or made up, and a page without text is indexed with the
    empty string. *)
Theorem index_holds_page_texts (fuel : nat) (seed : string) (base_url : option string) :
  let w := state_of (run_crawl fuel seed base_url new_crawler) in
  forall u t, (u, t) ∈ index w <-> u ∈ visited w /\ get_text <$> page u = Some t.
Proof. intros w. apply crawl_index_is_pages. Qed.

(** X4. After a run from a new crawler the index lists the pages in the
    order in which they were fetched: its keys, first to last, are a sublist
    of the URLs [requests.get] was called on, oldest first.  So [search]
    returns its results in crawl order. *)
Theorem index_in_fetch_order (fuel : nat) (seed : string) (base_url : option string)
    (keyword : string) :
  let w := state_of (run_crawl fuel seed base_url new_crawler) in
  keys (index w) `sublist_of` reverse (gets (trace w))
  /\ search (index w) keyword `sublist_of` reverse (gets (trace w)).
Proof.
  intros w.
  assert (Hk : keys (index w) `sublist_of` reverse (gets (trace w))).
  { apply (crawl_consistent_invariant
             (fun w => keys (index w) `sublist_of` reverse (gets (trace w)))).
    - intros u w0 e _ Hp _ _.
      change (keys (index w0) `sublist_of` reverse (u :: gets (trace w0))).
      rewrite reverse_cons. by apply sublist_inserts_r.
    - intros u w0 r _ Hp _ _ _.
      change (keys (index w0) `sublist_of` reverse (u :: gets (trace w0))).
      rewrite reverse_cons. by apply sublist_inserts_r.
    - intros u w0 soup Hc Hp Hin _.
      change (keys (dict_set u (get_text soup) (index w0))
                `sublist_of` reverse (u :: gets (trace w0))).
      rewrite reverse_cons, keys_dict_set.
      rewrite decide_False by (intros Hu; by apply Hin, consistent_keys_visited).
      by apply sublist_app.
    - intros u w0 soup link e base _ Hp _ _ _ _. exact Hp.
    - apply consistent_new.
    - done. }
  split; [done|]. etrans; [apply search_sublist | done].
Qed.

Lemma crawl_adds_gets (fuel : nat) (url : string) (bu : option string) (w : WebCrawler) :
  adds (trace w) = gets (trace w) ->
  adds (trace (state_of (run_crawl fuel url bu w)))
  = gets (trace (state_of (run_crawl fuel url bu w))).
Proof.
  apply (crawl_invariant requests_get BeautifulSoup urlparse_netloc urljoin
           (fun _ _ => True) (fun w => adds (trace w) = gets (trace w))); try done.
  intros u _ w0 _ Hw _. cbn. by rewrite Hw.
Qed.

(** X5. In a run from a new crawler [requests.get] is called once for every
    URL of [visited] and for no other: the URLs requested are the URLs added,
    in the same order, and their number is the size of [visited]. *)
Theorem one_request_per_visited (fuel : nat) (seed : string) (base_url : option string) :
  let w := state_of (run_crawl fuel seed base_url new_crawler) in
  gets (trace w) = adds (trace w)
  /\ (forall u, u ∈ gets (trace w) <-> u ∈ visited w)
  /\ length (gets (trace w)) = size (visited w).
Proof.
  intros w.
  pose proof (crawl_adds_gets fuel seed base_url new_crawler eq_refl) as Heq. fold w in Heq.
  destruct (crawl_consistent requests_get BeautifulSoup urlparse_netloc urljoin
              fuel seed base_url new_crawler (consistent_new requests_get))
    as [Hnd _ Hav _ _ _ _ _].
  fold w in Hnd, Hav.
  split; [done|]. split; [intros u; rewrite <- Heq; apply Hav|].
  assert (Hset : visited w = list_to_set (adds (trace w))).
  { apply set_eq. intros u. rewrite elem_of_list_to_set. symmetry. apply Hav. }
  rewrite Hset, size_list_to_set by done. by rewrite Heq.
Qed.

(** ** The log of a run *)

(** X6. In a run from a new crawler a warning is logged for a URL exactly
    when the URL was visited and [requests.get] answered for it with a
    response that is not HTML. *)
Theorem warning_iff_not_html (fuel : nat) (seed : string) (base_url : option string) :
  let w := state_of (run_crawl fuel seed base_url new_crawler) in
  forall u, EvWarning u ∈ trace w
    <-> u ∈ visited w /\ exists r, requests_get u = Ok r /\ is_html r = false.
Proof.
  intros w.
  apply (crawl_consistent_invariant (fun w => forall u, EvWarning u ∈ trace w
    <-> u ∈ visited w /\ exists r, requests_get u = Ok r /\ is_html r = false)).
  - intros u w0 e _ Hp Hin Hf x. rewrite visited_record, visited_fetching.
    cbn. rewrite !elem_of_cons, (Hp x), elem_of_union, elem_of_singleton. split.
    + intros [[=]|[[=]|[[=]|[Hv Hr]]]]. auto.
    + intros [[->|Hv] (r & Hget & Hhtml)]; [|by right; right; right; split; [|exists r]].
      unfold failure in Hf. rewrite Hget, Hhtml in Hf. discriminate Hf.
  - intros u w0 r _ Hp Hin Hget Hhtml x. rewrite visited_record, visited_fetching.
    cbn. rewrite !elem_of_cons, (Hp x), elem_of_union, elem_of_singleton. split.
    + intros [[= ->]|[[=]|[[=]|[Hv Hr]]]]; [|by auto]. split; [by left | by exists r].
    + intros [[->|Hv] Hr]; [by left | by right; right; right].
  - intros u w0 soup _ Hp Hin (r & Hget & Hhtml & _)%page_soup_Some x.
    rewrite visited_index_set, visited_fetching.
    cbn. rewrite !elem_of_cons, (Hp x), elem_of_union, elem_of_singleton. split.
    + intros [[=]|[[=]|[[=]|[Hv Hr]]]]. auto.
    + intros [[->|Hv] (r' & Hget' & Hhtml')]; [congruence|].
      right. right. right. split; [done | by exists r'].
  - intros u w0 soup link e base _ Hp _ _ _ _ x. rewrite visited_record.
    cbn. rewrite elem_of_cons, (Hp x). split; [intros [[=]|?]; done | by right].
  - apply consistent_new.
  - intros x. split; [by intros ?%elem_of_nil | by intros [?%not_elem_of_empty _]].
Qed.

(** X7. In a run from a new crawler every error in the log is that of a
    visited URL whose fetch or parse raised it, or of a visited page one of
    whose links made the URL functions raise it; and every visited URL whose
    fetch or parse raises has its error in the log. *)
Theorem errors_logged (fuel : nat) (seed : string) (base_url : option string) :
  let w := state_of (run_crawl fuel seed base_url new_crawler) in
  (forall u e, EvError u e ∈ trace w -> u ∈ visited w /\ error_cause u e)
  /\ (forall u e, u ∈ visited w -> fails u = Some e -> EvError u e ∈ trace w).
Proof.
  intros w.
  apply (crawl_consistent_invariant (fun w =>
    (forall u e, EvError u e ∈ trace w -> u ∈ visited w /\ error_cause u e)
    /\ (forall u e, u ∈ visited w -> fails u = Some e -> EvError u e ∈ trace w))).
  - intros u w0 e _ [Hp1 Hp2] Hin Hf. rewrite visited_record, visited_fetching. split.
    + intros x ex [[= -> ->]|[[=]|[[=]|Hx]%elem_of_cons]%elem_of_cons]%elem_of_cons.
      * split; [apply elem_of_union; left; by apply elem_of_singleton | by left].
      * destruct (Hp1 x ex Hx) as [Hv Hc]. split; [by apply elem_of_union; right | done].
    + intros x ex [->%elem_of_singleton|Hv]%elem_of_union Hfx.
      * assert (ex = e) as -> by congruence. left.
      * right. right. right. by apply Hp2.
  - intros u w0 r _ [Hp1 Hp2] Hin Hget Hhtml. rewrite visited_record, visited_fetching.
    split.
    + intros x ex [[=]|[[=]|[[=]|Hx]%elem_of_cons]%elem_of_cons]%elem_of_cons.
      destruct (Hp1 x ex Hx) as [Hv Hc]. split; [by apply elem_of_union; right | done].
    + intros x ex [->%elem_of_singleton|Hv]%elem_of_union Hfx.
      * unfold failure in Hfx. rewrite Hget, Hhtml in Hfx. discriminate Hfx.
      * right. right. right. by apply Hp2.
  - intros u w0 soup _ [Hp1 Hp2] Hin Hpg. rewrite visited_index_set, visited_fetching.
    split.
    + intros x ex [[=]|[[=]|[[=]|Hx]%elem_of_cons]%elem_of_cons]%elem_of_cons.
      destruct (Hp1 x ex Hx) as [Hv Hc]. split; [by apply elem_of_union; right | done].
    + intros x ex [->%elem_of_singleton|Hv]%elem_of_union Hfx.
      * rewrite (page_no_failure _ _ Hpg) in Hfx. discriminate Hfx.
      * right. right. right. by apply Hp2.
  - intros u w0 soup link e base _ [Hp1 Hp2] Hin Hpg Hl Hr. rewrite visited_record. split.
    + intros x ex [[= -> ->]|Hx]%elem_of_cons; [|by apply Hp1].
      split; [done|]. right. by exists soup, base, link.
    + intros x ex Hv Hfx. right. by apply Hp2.
  - apply consistent_new.
  - split; [by intros u e ?%elem_of_nil | by intros u e ?%not_elem_of_empty].
Qed.

(** ** A page without links to follow *)

(** X9. A page whose anchors all lack an [href], or have an empty one (a
    page without anchors, an empty body included), is indexed with its text
    and the call returns at once: a depth of one frame is enough, nothing is
    crawled from the page, and the URL functions are not called, so that it
    does not matter what they would do. *)
Theorem page_without_hrefs (fuel : nat) (url : string) (base_url : option string)
    (w : WebCrawler) (soup : Soup) :
  url ∉ visited w -> page url = Some soup ->
  (forall link, link ∈ find_all_a soup -> link = None \/ link = Some EmptyString) ->
  run_crawl (S fuel) url base_url w
  = Returned (index_set url (get_text soup) (fetching url w))
  /\ (forall netloc' join',
        crawl requests_get BeautifulSoup netloc' join' (S fuel) url base_url w
        = run_crawl (S fuel) url base_url w).
Proof.
  intros Hin (r & Hget & Hhtml & Hsoup)%page_soup_Some Hlinks.
  assert (Hrun : forall netloc' join',
    crawl requests_get BeautifulSoup netloc' join' (S fuel) url base_url w
    = Returned (index_set url (get_text soup) (fetching url w))).
  { intros netloc' join'. cbn [crawl]. rewrite decide_False by done.
    rewrite Hget, Hhtml, Hsoup. cbn [negb].
    fold (fetching url w).
    assert (Hloop : forall f b ls w0,
      (forall link, link ∈ ls -> link = None \/ link = Some EmptyString) ->
      for_links netloc' join' f b ls w0 = Returned w0).
    { intros f b ls. induction ls as [|l ls IH]; intros w0 Hl; [done|]. cbn [for_links].
      assert (Hr : resolve_link netloc' join' b l = LinkSkip).
      { destruct (Hl l) as [-> | ->]; [left|done..]. }
      rewrite Hr. apply IH. intros l' Hl'. apply Hl. by right. }
    by rewrite Hloop. }
  split; [apply Hrun|]. intros netloc' join'. by rewrite !Hrun.
Qed.

(** ** A base given by the caller *)

(** X8. When the caller passes a base ([crawl(url, base_url=b)], [b] not
    empty), the run is scoped by the base and not by the start URL: it is the
    crawl that takes [b] as the base at every depth, and every URL it adds to
    [visited], the start URL apart, has the network location of [b]. *)
Theorem explicit_base_scopes_run (fuel : nat) (url b : string) (w : WebCrawler) :
  PyStr.truthy b = true ->
  let w' := state_of (run_crawl fuel url (Some b) w) in
  run_crawl fuel url (Some b) w
  = crawl_from requests_get BeautifulSoup urlparse_netloc urljoin b fuel url w
  /\ forall u, u ∈ visited w' ->
       u ∈ visited w \/ u = url \/ urlparse_netloc u = urlparse_netloc b.
Proof.
  intros Hb w'. split; [by apply crawl_with_base|].
  apply (crawl_invariant requests_get BeautifulSoup urlparse_netloc urljoin
    (fun url' bu' => bu' = Some b /\ (url' = url \/ urlparse_netloc url' = urlparse_netloc b))
    (fun w' => forall u, u ∈ visited w' ->
       u ∈ visited w \/ u = url \/ urlparse_netloc u = urlparse_netloc b)).
  - intros url' bu' link href [-> _]. cbn [PyStr.or_else]. rewrite Hb.
    intros (n & Hh & Hn)%resolve_link_crawl. split; [done|]. right. congruence.
  - intros url' bu' w0 [_ Hu] Hw _ u. rewrite visited_fetching.
    intros [->%elem_of_singleton | Hin]%elem_of_union; [by right | by apply Hw].
  - done.
  - done.
  - done.
  - split; [done | by left].
  - intros u Hu. by left.
Qed.

(** ** The URLs of a run *)

Local Abbreviation reach := (reachable requests_get BeautifulSoup urlparse_netloc urljoin).

Lemma crawl_reachable (fuel : nat) (seed : string) :
  PyStr.truthy seed = true ->
  let w := state_of (run_crawl fuel seed None new_crawler) in
  forall u, u ∈ visited w -> reach seed u.
Proof.
  intros Hseed w.
  assert (Hor : forall url, PyStr.or_else (Some seed) url = seed).
  { intros url. cbn [PyStr.or_else]. by rewrite Hseed. }
  unfold w. rewrite crawl_none.
  apply (crawl_page_invariant
    (fun url bu => bu = Some seed /\ reach seed url)
    (fun w => forall u, u ∈ visited w -> reach seed u)).
  - intros url bu soup link href [-> Hr] Hpg Hl. rewrite Hor. intros Hres.
    split; [done|]. by apply (reachable_link _ _ _ _ seed url soup link href).
  - intros url bu w0 e [_ Hr] Hw _ _ u. rewrite visited_record, visited_fetching.
    intros [->%elem_of_singleton | Hin]%elem_of_union; [done | by apply Hw].
  - intros url bu w0 r [_ Hr] Hw _ _ _ u. rewrite visited_record, visited_fetching.
    intros [->%elem_of_singleton | Hin]%elem_of_union; [done | by apply Hw].
  - intros url bu w0 soup [_ Hr] Hw _ _ u. rewrite visited_index_set, visited_fetching.
    intros [->%elem_of_singleton | Hin]%elem_of_union; [done | by apply Hw].
  - intros url bu w0 soup link e _ Hw _ _ _ _ u. rewrite visited_record. apply Hw.
  - split; [done | apply reachable_seed].
  - intros u Hu. by apply not_elem_of_empty in Hu.
Qed.

(** X16. A run [crawl(seed)] from a new crawler visits only what it can
    reach: every URL that it adds to [visited], fetches or indexes is the seed
    or is linked, by a link that the loop follows, from the HTML page of a URL
    that is itself reachable. *)
Theorem visits_only_reachable (fuel : nat) (seed : string) :
  PyStr.truthy seed = true ->
  let w := state_of (run_crawl fuel seed None new_crawler) in
  (forall u, u ∈ visited w -> reach seed u)
  /\ (forall u, u ∈ keys (index w) -> reach seed u)
  /\ (forall u, u ∈ gets (trace w) -> reach seed u).
Proof.
  intros Hseed w. pose proof (crawl_reachable fuel seed Hseed) as Hv. fold w in Hv.
  destruct (crawl_consistent requests_get BeautifulSoup urlparse_netloc urljoin
              fuel seed None new_crawler (consistent_new requests_get))
    as [_ _ _ Hgets _ _ _ _].
  fold w in Hgets.
  split; [done|]. split.
  - intros u Hu. apply Hv. apply consistent_keys_visited; [|done].
    apply crawl_consistent, consistent_new.
  - intros u Hu. by apply Hv, Hgets.
Qed.

(** ** Searching what was crawled *)

Lemma search_pages (w : WebCrawler) (keyword u : string) :
  index_is_pages w ->
  u ∈ search (index w) keyword
  <-> u ∈ visited w
      /\ exists soup, page u = Some soup /\ occurs_nocase keyword (get_text soup).
Proof.
  intros Hidx. rewrite search_elem_of. split.
  - intros (t & [Hv Hpg]%Hidx & Ho).
    apply fmap_Some in Hpg as (soup & Hpg & ->). split; [done | by exists soup].
  - intros (Hv & soup & Hpg & Ho). exists (get_text soup). split; [|done].
    apply Hidx. split; [done | by rewrite Hpg].
Qed.

Section SearchCrawled.

Variable str_lower : string -> string.
Hypothesis Hlower : lowers_ascii str_lower.

Lemma search_with_pages (w : WebCrawler) (keyword u : string) :
  index_is_pages w ->
  u ∈ search_with str_lower (index w) keyword
  <-> u ∈ visited w
      /\ exists soup, page u = Some soup
           /\ exists pre post, str_lower (get_text soup) = pre +:+ str_lower keyword +:+ post.
Proof.
  intros Hidx. rewrite search_with_elem_of. split.
  - intros (t & [Hv Hpg]%Hidx & Ho).
    apply fmap_Some in Hpg as (soup & Hpg & ->). split; [done | by exists soup].
  - intros (Hv & soup & Hpg & Ho). exists (get_text soup). split; [|done].
    apply Hidx. split; [done | by rewrite Hpg].
Qed.

(** X13. Searching the index a run has built (from a new crawler, whatever
    it reached) returns exactly the visited URLs whose page is HTML, parses,
    and has the lower-cased keyword in its lower-cased text, each once.  For
    an ASCII keyword and a page whose text is ASCII: exactly when the page is
    visited and its text has the keyword in letters of either case. *)
Theorem search_after_crawl (fuel : nat) (seed : string) (base_url : option string)
    (keyword : string) :
  let w := state_of (run_crawl fuel seed base_url new_crawler) in
  (forall u, u ∈ search_with str_lower (index w) keyword
     <-> u ∈ visited w
         /\ exists soup, page u = Some soup
              /\ exists pre post,
                   str_lower (get_text soup) = pre +:+ str_lower keyword +:+ post)
  /\ (Case.is_ascii keyword = true ->
      forall u soup, page u = Some soup -> Case.is_ascii (get_text soup) = true ->
        (u ∈ search_with str_lower (index w) keyword
         <-> u ∈ visited w /\ Case.occurs_ignoring_case keyword (get_text soup)))
  /\ NoDup (search_with str_lower (index w) keyword).
Proof.
  intros w.
  assert (Hpages : forall u, u ∈ search_with str_lower (index w) keyword
     <-> u ∈ visited w
         /\ exists soup, page u = Some soup
              /\ exists pre post,
                   str_lower (get_text soup) = pre +:+ str_lower keyword +:+ post).
  { intros u. apply search_with_pages, crawl_index_is_pages. }
  split; [done|]. split.
  - intros Hk u soup Hpg Ht. rewrite Hpages. split.
    + intros (Hv & soup' & Hpg' & Ho). split; [done|].
      assert (soup' = soup) as -> by congruence.
      by apply (lowered_in_ascii str_lower Hlower).
    + intros (Hv & Ho). split; [done|]. exists soup. split; [done|].
      by apply (lowered_in_ascii str_lower Hlower).
  - apply (sublist_NoDup _ (keys (index w))); [|apply search_with_sublist].
    by destruct (crawl_consistent requests_get BeautifulSoup urlparse_netloc urljoin
                   fuel seed base_url new_crawler (consistent_new requests_get)).
Qed.

End SearchCrawled.

(** ** A run that logs no error has exhausted the links *)

Local Abbreviation exhausted :=
  (links_exhausted requests_get BeautifulSoup urlparse_netloc urljoin).
Local Abbreviation is_settled :=
  (settled requests_get BeautifulSoup urlparse_netloc urljoin).
Local Abbreviation pages_are_settled :=
  (pages_settled requests_get BeautifulSoup urlparse_netloc urljoin).
Local Abbreviation call_settled :=
  (call_settles requests_get BeautifulSoup urlparse_netloc urljoin).
Local Abbreviation loop_settled :=
  (loop_settles requests_get BeautifulSoup urlparse_netloc urljoin).

Lemma elem_of_errors (u : string) (e : exn) (tr : list event) :
  (u, e) ∈ errors tr <-> EvError u e ∈ tr.
Proof.
  induction tr as [|ev tr IH]; cbn [errors].
  - split; intros H; by apply elem_of_nil in H.
  - destruct ev as [x|x|x|x|x e']; rewrite ?elem_of_cons, IH;
      try (split; [by right | by intros [[=]|?]]).
    split; (intros [[= -> ->]|H]; [by left | by right]).
Qed.

Lemma grown_trans (w1 w2 w3 : WebCrawler) : grown w1 w2 -> grown w2 w3 -> grown w1 w3.
Proof.
  intros (Hv & Hk & Ht) (Hv' & Hk' & Ht'). split; [by etrans|].
  split; [intros u Hu; by apply Hk', Hk | by etrans].
Qed.

Lemma settled_grown (base u : string) (w w' : WebCrawler) :
  grown w w' -> is_settled base u w -> is_settled base u w'.
Proof.
  intros (Hv & _ & [k Ht]) [[e He] | Hex].
  - left. exists e. rewrite Ht. apply elem_of_app. by right.
  - right. intros r soup link href Hget Hsoup Hin Hr. apply Hv. by eapply Hex.
Qed.

Lemma pages_settled_refl (base : string) (w : WebCrawler) : pages_are_settled base w w.
Proof. intros u Hu. by left. Qed.

Lemma pages_settled_trans (base : string) (w1 w2 w3 : WebCrawler) :
  grown w2 w3 -> pages_are_settled base w1 w2 -> pages_are_settled base w2 w3 ->
  pages_are_settled base w1 w3.
Proof.
  intros Hg H12 H23 u Hu. destruct (H23 u Hu) as [Hu2 | Hs]; [|by right].
  destruct (H12 u Hu2) as [Hu1 | Hs]; [by left|].
  right. by apply (settled_grown base u w2).
Qed.

Lemma for_links_settles (self_crawl : string -> option string -> WebCrawler -> outcome)
    (base : string) (links : list (option string)) :
  (forall href w w', self_crawl href (Some base) w = Returned w' -> call_settled base href w w') ->
  (forall href w e w', self_crawl href (Some base) w <> Raised e w') ->
  forall w, loop_settled base links w (links_loop self_crawl base links w).
Proof.
  intros Hret Hnr. induction links as [|link rest IH]; intros w; cbn [for_links].
  - split; [apply grown_refl|]. split; [apply pages_settled_refl|].
    intros link href Hin. by apply elem_of_nil in Hin.
  - destruct (resolve base link) as [|href|e] eqn:Hr.
    + specialize (IH w).
      destruct (links_loop self_crawl base rest w) as [w'|e w'|w']; [|done|done].
      destruct IH as (Hg & Hp & Hl). split; [done|]. split; [done|].
      intros l h [->|Hin]%elem_of_cons Hl'; [congruence | by eapply Hl].
    + destruct (self_crawl href (Some base) w) as [w1|e w1|w1] eqn:Hc;
        [|by destruct (Hnr _ _ _ _ Hc)|done].
      destruct (Hret _ _ _ Hc) as (Hg1 & Hh & Hp1).
      specialize (IH w1).
      destruct (links_loop self_crawl base rest w1) as [w'|e w'|w']; [| |done].
      * destruct IH as (Hg & Hp & Hl). split; [by eapply grown_trans|].
        split; [by eapply pages_settled_trans|].
        intros l h [->|Hin]%elem_of_cons Hl'; [|by eapply Hl].
        destruct Hg as (Hv & _). apply Hv. congruence.
      * destruct IH as (Hg & Hp). split; [by eapply grown_trans|].
        by eapply pages_settled_trans.
    + split; [apply grown_refl | apply pages_settled_refl].
Qed.

Lemma call_settles_unindexed (base url : string) (w w' : WebCrawler) :
  grown w w' -> url ∈ visited w' -> index w' = index w -> call_settled base url w w'.
Proof.
  intros Hg Hu Hi. split; [done|]. split; [done|].
  intros u Hk. left. by rewrite <- Hi.
Qed.

Lemma fetching_visits (url : string) (w : WebCrawler) : url ∈ visited (fetching url w).
Proof. rewrite visited_fetching. apply elem_of_union. left. by apply elem_of_singleton. Qed.

Lemma crawl_settles (base : string) (fuel : nat) : PyStr.truthy base = true ->
  forall url w w',
    run_crawl fuel url (Some base) w = Returned w' -> call_settled base url w w'.
Proof.
  intros Hbase. induction fuel as [|fuel IH]; intros url w w'; [done|].
  rewrite crawl_S. cbn [PyStr.or_else]. rewrite Hbase.
  destruct (decide (url ∈ visited w)) as [Hin|Hin].
  { intros [= <-]. apply call_settles_unindexed; [apply grown_refl | done | done]. }
  pose proof (grown_fetching url w w (grown_refl w)) as Hgf.
  pose proof (fetching_visits url w) as Hvf.
  destruct (requests_get url) as [r|e] eqn:Hget.
  2:{ intros [= <-]. apply call_settles_unindexed; [by apply grown_record | done | done]. }
  destruct (negb (is_html r)).
  { intros [= <-]. apply call_settles_unindexed; [by apply grown_record | done | done]. }
  destruct (BeautifulSoup (text r)) as [soup|e] eqn:Hsoup.
  2:{ intros [= <-]. apply call_settles_unindexed; [by apply grown_record | done | done]. }
  pose proof (for_links_settles (run_crawl fuel) base (find_all_a soup)
    (fun href w0 w1 => IH href w0 w1)
    (fun href w0 e w1 => crawl_never_raises requests_get BeautifulSoup urlparse_netloc
                           urljoin fuel href (Some base) w0 w1 e)
    (index_set url (get_text soup) (fetching url w))) as Hloop.
  pose proof (grown_index_set url (get_text soup) w _ Hgf) as Hgi.
  assert (Hkeys : forall w2 u,
    pages_are_settled base (index_set url (get_text soup) (fetching url w)) w2 ->
    is_settled base url w2 -> u ∈ keys (index w2) ->
    u ∈ keys (index w) \/ is_settled base u w2).
  { intros w2 u Hp Hurl Hu. destruct (Hp u Hu) as [Hk | Hs]; [|by right].
    apply elem_of_keys_dict_set in Hk as [-> | Hk]; [by right | by left]. }
  destruct (links_loop (run_crawl fuel) base (find_all_a soup) _) as [w2|e w2|w2];
    [| |done].
  - intros [= <-]. destruct Hloop as (Hg & Hp & Hl).
    split; [by eapply grown_trans|].
    split; [destruct Hg as (Hv & _); by apply Hv|].
    intros u Hu. apply (Hkeys w2 u Hp); [|done].
    right. intros r' soup' link href Hget' Hsoup' Hlink Hres.
    assert (r' = r) as -> by congruence. assert (soup' = soup) as -> by congruence.
    by eapply Hl.
  - intros [= <-]. destruct Hloop as (Hg & Hp).
    assert (Hgr : grown w2 (record (EvError url e) w2)) by apply grown_record, grown_refl.
    split; [apply grown_record; by eapply grown_trans|].
    split; [destruct Hg as (Hv & _); by apply Hv|].
    intros u Hu.
    apply (Hkeys (record (EvError url e) w2) u); [| |done].
    + apply (pages_settled_trans base _ w2); [done | done |].
      intros x Hx. by left.
    + left. exists e. left.
Qed.

Lemma crawl_no_error_exhausted (fuel : nat) (seed : string) (w : WebCrawler) :
  PyStr.truthy seed = true ->
  run_crawl fuel seed None new_crawler = Returned w ->
  errors (trace w) = [] ->
  forall u, u ∈ keys (index w) -> exhausted seed u w.
Proof.
  intros Hseed Hrun Herr u Hu. rewrite crawl_none in Hrun.
  destruct (crawl_settles seed fuel Hseed seed new_crawler w Hrun) as (_ & _ & Hp).
  destruct (Hp u Hu) as [Hnil | [[e He] | Hex]]; [by apply elem_of_nil in Hnil | | done].
  apply elem_of_errors in He. rewrite Herr in He. by apply elem_of_nil in He.
Qed.


(** X17. A run [crawl(seed)] that returns with no error in its log has
    visited exactly the URLs it can reach through the links that the loop
    follows.  (An exception ends the loop of its page before the links that
    come after, and is logged.) *)
Theorem returned_run_visits_reachable (fuel : nat) (seed : string) (w : WebCrawler) :
  PyStr.truthy seed = true ->
  run_crawl fuel seed None new_crawler = Returned w ->
  errors (trace w) = [] ->
  forall u, u ∈ visited w <-> reach seed u.
Proof.
  intros Hseed Hrun Herr u. split.
  - pose proof (crawl_reachable fuel seed Hseed) as H.
    rewrite Hrun in H. apply H.
  - intros Hu. induction Hu as [|u soup link href Hu IH Hpg Hl Hr].
    + destruct fuel as [|fuel]; [done|].
      pose proof (crawl_visits_url fuel seed None new_crawler) as H.
      by rewrite Hrun in H.
    + pose proof (crawl_index_is_pages fuel seed None) as Hidx. rewrite Hrun in Hidx.
      assert (Hkey : u ∈ keys (index w)).
      { apply elem_of_keys. exists (get_text soup). apply Hidx.
        split; [done | by rewrite Hpg]. }
      apply page_soup_Some in Hpg as (r & Hget & _ & Hsoup).
      by apply (crawl_no_error_exhausted fuel seed w Hseed Hrun Herr u Hkey r soup link href).
Qed.

End CrawlerMore.

(** ** More on strings and search *)

Lemma str_app_assoc (a b c : string) : (a +:+ b) +:+ c = a +:+ (b +:+ c).
Proof.
  induction a as [|x a IH]; [done|].
  rewrite !PyStrFacts.app_cons. by rewrite IH.
Qed.

Lemma str_length_app (a b : string) :
  String.length (a +:+ b) = String.length a + String.length b.
Proof.
  induction a as [|x a IH]; [done|].
  rewrite PyStrFacts.app_cons. simpl. by rewrite IH.
Qed.

Lemma same_nocase_length (s t : string) :
  Case.same_nocase s t -> String.length s = String.length t.
Proof. induction 1 as [|a b s t _ _ IH]; [done|]. simpl. by rewrite IH. Qed.

Lemma occurs_ignoring_case_length (keyword txt : string) :
  Case.occurs_ignoring_case keyword txt -> String.length keyword <= String.length txt.
Proof.
  intros (pre & part & post & -> & Hl%same_nocase_length).
  rewrite !str_length_app. lia.
Qed.

Lemma is_ascii_lower (s : string) :
  Case.is_ascii s = true -> Case.is_ascii (PyStr.lower s) = true.
Proof.
  induction s as [|c s IH]; [done|]. cbn [Case.is_ascii PyStr.lower].
  rewrite !andb_true_iff, !Nat.ltb_lt. intros [Hc Hs]. split; [|by apply IH].
  destruct (Case.is_upper c) eqn:Hu.
  - rewrite lower_ascii_upper by done. apply is_upper_range in Hu. lia.
  - by rewrite lower_ascii_other.
Qed.

Lemma lower_ascii_idemp (c : ascii) :
  PyStr.lower_ascii (PyStr.lower_ascii c) = PyStr.lower_ascii c.
Proof.
  destruct (Case.is_upper c) eqn:Hu; [|by rewrite !(lower_ascii_other c Hu)].
  apply lower_ascii_other, not_true_is_false. intros Hl%is_upper_range.
  rewrite lower_ascii_upper in Hl by done. apply is_upper_range in Hu. lia.
Qed.

Lemma lower_idemp (s : string) : PyStr.lower (PyStr.lower s) = PyStr.lower s.
Proof. induction s as [|c s IH]; [done|]. simpl. by rewrite lower_ascii_idemp, IH. Qed.

Section SearchMore.

Variable str_lower : string -> string.

Local Abbreviation lowered_in keyword txt :=
  (exists pre post, str_lower txt = pre +:+ str_lower keyword +:+ post).

Lemma lowered_in_trans (k1 k2 txt : string) :
  lowered_in k1 k2 -> lowered_in k2 txt -> lowered_in k1 txt.
Proof.
  intros (p1 & q1 & H1) (p2 & q2 & H2). exists (p2 +:+ p1), (q1 +:+ q2).
  rewrite H2, H1. by rewrite !str_app_assoc.
Qed.

Lemma search_with_narrows (d : list (string * string)) (k1 k2 : string) :
  lowered_in k1 k2 ->
  search_with str_lower d k2 `sublist_of` search_with str_lower d k1.
Proof.
  intros Hk. induction d as [|[u t] d IH]; cbn [search_with]; [done|].
  destruct (PyStr.contains (str_lower k2) (str_lower t)) eqn:H2.
  - apply PyStrFacts.contains_spec in H2.
    assert (H1 : PyStr.contains (str_lower k1) (str_lower t) = true).
    { apply PyStrFacts.contains_spec. by apply (lowered_in_trans k1 k2). }
    rewrite H1. by apply sublist_skip.
  - destruct (PyStr.contains (str_lower k1) (str_lower t)); [by apply sublist_cons | done].
Qed.

Lemma search_with_same_lowered (d : list (string * string)) (k1 k2 : string) :
  str_lower k1 = str_lower k2 -> search_with str_lower d k1 = search_with str_lower d k2.
Proof.
  intros Hk. induction d as [|[u t] d IH]; cbn [search_with]; [done|]. by rewrite Hk, IH.
Qed.

Hypothesis Hlower : lowers_ascii str_lower.

Lemma str_lower_idemp_ascii (s : string) :
  Case.is_ascii s = true -> str_lower (str_lower s) = str_lower s.
Proof.
  intros Hs. rewrite (Hlower s Hs), (Hlower _ (is_ascii_lower s Hs)). apply lower_idemp.
Qed.

(** X10. Indexing then searching.  After [index[url] = txt] on an index
    whose keys are distinct, [search] lists [url] exactly when the lower-cased
    [txt] contains the lower-cased keyword (for an ASCII keyword and text:
    when [txt] has the keyword in letters of either case), lists it once, and
    lists any other URL exactly when it did before. *)
Theorem index_then_search (d : list (string * string)) (url txt keyword : string) :
  NoDup (keys d) ->
  (url ∈ search_with str_lower (dict_set url txt d) keyword <-> lowered_in keyword txt)
  /\ (Case.is_ascii keyword = true -> Case.is_ascii txt = true ->
      (url ∈ search_with str_lower (dict_set url txt d) keyword
       <-> Case.occurs_ignoring_case keyword txt))
  /\ (forall u, u <> url ->
        (u ∈ search_with str_lower (dict_set url txt d) keyword
         <-> u ∈ search_with str_lower d keyword))
  /\ NoDup (search_with str_lower (dict_set url txt d) keyword).
Proof.
  intros Hnd.
  assert (Hurl : url ∈ search_with str_lower (dict_set url txt d) keyword
                 <-> lowered_in keyword txt).
  { rewrite search_with_elem_of. split.
    - intros (t & [[_ ->] | [Hne _]]%elem_of_dict_set & Ho); done.
    - intros Ho. exists txt. split; [apply dict_set_head | done]. }
  split; [done|]. split; [|split].
  - intros Hk Ht. rewrite Hurl. by apply lowered_in_ascii.
  - intros u Hu. rewrite !search_with_elem_of. split.
    + intros (t & [[-> _] | [_ Hin]]%elem_of_dict_set & Ho); [done | by exists t | done].
    + intros (t & Hin & Ho). exists t. split; [by apply dict_set_other | done].
  - apply (sublist_NoDup _ (keys (dict_set url txt d))); [|apply search_with_sublist].
    by apply NoDup_keys_dict_set.
Qed.

(** X11. A longer keyword narrows the search: when the lower-cased [k2]
    contains the lower-cased [k1] (for ASCII keywords: when [k2] has [k1] in
    letters of either case), the results for [k2] are among the results for
    [k1], in the same order. *)
Theorem longer_keyword_narrows (d : list (string * string)) (k1 k2 : string) :
  (lowered_in k1 k2 \/
   (Case.is_ascii k1 = true /\ Case.is_ascii k2 = true /\ Case.occurs_ignoring_case k1 k2)) ->
  search_with str_lower d k2 `sublist_of` search_with str_lower d k1.
Proof.
  intros [Hk | (H1 & H2 & Hk)]; apply search_with_narrows; [done|].
  by apply lowered_in_ascii.
Qed.

(** X12. An ASCII keyword longer than every indexed text, the texts ASCII
    too, finds nothing. *)
Theorem keyword_longer_than_texts (d : list (string * string)) (keyword : string) :
  Case.is_ascii keyword = true ->
  (forall u t, (u, t) ∈ d ->
     Case.is_ascii t = true /\ String.length t < String.length keyword) ->
  search_with str_lower d keyword = [].
Proof.
  intros Hk Hlen. apply elem_of_nil_inv. intros u Hu.
  apply search_with_elem_of in Hu as (t & Hin & Ho).
  destruct (Hlen u t Hin) as [Ht Hl].
  apply lowered_in_ascii in Ho; [|done..].
  apply occurs_ignoring_case_length in Ho. lia.
Qed.

(** X19. On ASCII text [search] ignores the case of letters: two ASCII
    keywords that differ in the case of letters only give the same results,
    the lower-cased keyword gives the results of the keyword, and so does an
    index of ASCII texts that have been lower-cased. *)
Theorem search_ignores_case (d : list (string * string)) (k1 k2 : string) :
  Case.is_ascii k1 = true ->
  (Case.is_ascii k2 = true -> Case.same_nocase k1 k2 ->
   search_with str_lower d k1 = search_with str_lower d k2)
  /\ search_with str_lower d (str_lower k1) = search_with str_lower d k1
  /\ ((forall u t, (u, t) ∈ d -> Case.is_ascii t = true) ->
      search_with str_lower (prod_map id str_lower <$> d) k1 = search_with str_lower d k1).
Proof.
  intros H1. split; [|split].
  - intros H2 Hk. apply search_with_same_lowered.
    rewrite (Hlower k1 H1), (Hlower k2 H2). by apply lower_same_nocase.
  - apply search_with_same_lowered. by apply str_lower_idemp_ascii.
  - induction d as [|[u t] d IH]; intros Hd; [done|].
    rewrite fmap_cons. cbn [search_with prod_map fst snd id].
    rewrite str_lower_idemp_ascii by (apply (Hd u); left).
    rewrite IH; [done|]. intros x y Hin. apply (Hd x). by right.
Qed.

End SearchMore.

(** ** Printing the results *)

Lemma dash_inj (a b : string) : "- " +:+ a = "- " +:+ b -> a = b.
Proof. rewrite !PyStrFacts.app_cons, !PyStrFacts.app_nil. by intros [= ->]. Qed.

Lemma dashes_inj (r1 r2 : list string) :
  map (fun result => "- " +:+ result) r1 = map (fun result => "- " +:+ result) r2 ->
  r1 = r2.
Proof.
  revert r2. induction r1 as [|a r1 IH]; intros [|b r2]; simpl; try done.
  intros [= Hab Hr%IH]. change (a = b) in Hab. by subst.
Qed.

Lemma elem_of_dashes (u : string) (results : list string) :
  "- " +:+ u ∈ map (fun result => "- " +:+ result) results <-> u ∈ results.
Proof.
  induction results as [|a results IH]; simpl.
  - split; intros H; inversion H.
  - rewrite !elem_of_cons, IH. split.
    + intros [->%dash_inj | ?]; [by left | by right].
    + intros [-> | ?]; [by left | by right].
Qed.

Lemma print_results_none (results : list string) :
  print_results results = ["No results found."] <-> results = [].
Proof. destruct results as [|a results]; [done|]. split; [intros [=] | done]. Qed.

Lemma print_results_elem (results : list string) (u : string) :
  "- " +:+ u ∈ print_results results <-> u ∈ results.
Proof.
  destruct results as [|a results].
  - split; [intros [[=]|H]%elem_of_cons; inversion H | by intros ?%elem_of_nil].
  - cbn [print_results]. rewrite elem_of_cons, elem_of_dashes.
    split; [intros [[=]|?]; done | by right].
Qed.

Lemma newline_eqb : Ascii.eqb newline newline = true.
Proof. reflexivity. Qed.

Lemma lines_of_line (arg rest : string) :
  one_line arg = true -> lines_of (arg +:+ String newline rest) = arg :: lines_of rest.
Proof.
  induction arg as [|c arg IH]; cbn [one_line].
  - intros _. rewrite PyStrFacts.app_nil. cbn [lines_of]. by rewrite newline_eqb.
  - intros [Hc Harg]%andb_true_iff. rewrite PyStrFacts.app_cons. cbn [lines_of].
    apply negb_true_iff in Hc. rewrite Hc. by rewrite (IH Harg).
Qed.

Lemma lines_of_stdout (args : list string) :
  Forall (fun arg => one_line arg = true) args -> lines_of (stdout_of args) = args.
Proof.
  induction 1 as [|arg args Harg _ IH]; [done|].
  cbn [stdout_of]. by rewrite lines_of_line, IH.
Qed.

Lemma one_line_dash (result : string) : one_line ("- " +:+ result) = one_line result.
Proof. by rewrite !PyStrFacts.app_cons, PyStrFacts.app_nil. Qed.

Lemma print_results_one_line (results : list string) :
  Forall (fun result => one_line result = true) results ->
  Forall (fun arg => one_line arg = true) (print_results results).
Proof.
  intros Hr. destruct results as [|a results]; cbn [print_results].
  - by constructor.
  - constructor; [done|]. apply Forall_map. eapply Forall_impl; [exact Hr|].
    intros r Hl. cbn beta. by rewrite one_line_dash.
Qed.

Lemma print_results_inj (r1 r2 : list string) :
  print_results r1 = print_results r2 -> r1 = r2.
Proof.
  destruct r1 as [|a r1], r2 as [|b r2]; cbn [print_results]; try done.
  intros H. apply dashes_inj. congruence.
Qed.

(** X14. What [print_results] writes to standard output, for results
    without a newline in them: the lines of the output are the one line
    [No results found.] for an empty list, and for no other list, else the
    header and one line [- url] per result, in order; a line [- u] is there
    exactly when [u] is a result, and two lists that give the same output are
    the same list.  A result with a newline in it prints as several lines:
    the output does not tell it from several results. *)
Theorem print_results_faithful :
  (forall results, Forall (fun result => one_line result = true) results ->
     lines_of (stdout_of (print_results results)) = print_results results
     /\ length (lines_of (stdout_of (print_results results)))
        = match results with [] => 1 | _ :: _ => S (length results) end
     /\ (lines_of (stdout_of (print_results results)) = ["No results found."]
         <-> results = [])
     /\ (forall u, "- " +:+ u ∈ lines_of (stdout_of (print_results results))
                   <-> u ∈ results))
  /\ (forall r1 r2,
        Forall (fun result => one_line result = true) r1 ->
        Forall (fun result => one_line result = true) r2 ->
        stdout_of (print_results r1) = stdout_of (print_results r2) -> r1 = r2)
  /\ stdout_of (print_results [String "x" (String newline "- y")])
     = stdout_of (print_results ["x"; "y"]).
Proof.
  split; [|split].
  - intros results Hr.
    rewrite (lines_of_stdout _ (print_results_one_line results Hr)).
    split; [done|]. split; [|split].
    + destruct results as [|a results]; simpl; [done|]. by rewrite length_map.
    + apply print_results_none.
    + intros u. apply print_results_elem.
  - intros r1 r2 H1 H2 Hout. apply print_results_inj.
    rewrite <- (lines_of_stdout _ (print_results_one_line r1 H1)).
    rewrite <- (lines_of_stdout _ (print_results_one_line r2 H2)).
    by rewrite Hout.
  - vm_compute. reflexivity.
Qed.

(** ** The program *)

Section MainFacts.

Variable requests_get : string -> result Response.
Variable BeautifulSoup : string -> result Soup.
Variable urlparse_netloc : string -> result string.
Variable urljoin : string -> string -> result string.

Local Abbreviation run_main := (main requests_get BeautifulSoup urlparse_netloc urljoin).
Local Abbreviation page := (page_soup requests_get BeautifulSoup).


End MainFacts.

(** ** The further theorems at work on the scenarios *)

(** X8 on the portal: crawled with the base [https://example.com], the page
    of the site of the base is visited, the portal's own page is not. *)
Lemma explicit_base_scopes_run_witness :
  let w := state_of (crawl (Web.get PortalSite.pages) (Web.soup PortalSite.docs)
                       Urllib.netloc Urllib.urljoin 5 PortalSite.portal_url
                       (Some seed_url) new_crawler) in
  "https://example.com/a" ∈ visited w /\ ("https://portal.test/more" ∉ visited w).
Proof.
  split; [vm_compute; reflexivity|]. intros Hin.
  destruct (explicit_base_scopes_run (Web.get PortalSite.pages) (Web.soup PortalSite.docs)
              Urllib.netloc Urllib.urljoin 5 PortalSite.portal_url seed_url new_crawler
              eq_refl) as [_ Hscope].
  destruct (Hscope _ Hin) as [H|[H|H]].
  - by apply not_elem_of_empty in H.
  - discriminate H.
  - vm_compute in H. discriminate H.
Defined.

(** X9 on the seed with an empty body: one frame is enough, and the index
    holds the seed with the empty text. *)
Lemma page_without_hrefs_witness :
  Web.run EmptySite.pages [] 1 seed_url
  = Returned (index_set seed_url "" (fetching seed_url new_crawler))
  /\ index (index_set seed_url "" (fetching seed_url new_crawler)) = [(seed_url, "")].
Proof.
  split; [|reflexivity].
  apply (page_without_hrefs (Web.get EmptySite.pages) (Web.soup []) Urllib.netloc
           Urllib.urljoin 0 seed_url None new_crawler
           {| get_text := ""; find_all_a := [] |}).
  - apply not_elem_of_empty.
  - vm_compute. reflexivity.
  - intros link Hin. by apply elem_of_nil in Hin.
Defined.


(** X16 on the site whose pages link to each other. *)
Lemma visits_only_reachable_witness :
  reachable (Web.get RingSite.pages) (Web.soup RingSite.docs) Urllib.netloc Urllib.urljoin
    seed_url "https://example.com/b"
  /\ PyStr.truthy seed_url = true.
Proof.
  split; [|reflexivity].
  destruct (visits_only_reachable (Web.get RingSite.pages) (Web.soup RingSite.docs)
              Urllib.netloc Urllib.urljoin 5 seed_url eq_refl) as [Hv _].
  apply Hv. vm_compute. reflexivity.
Defined.




(** X17 on the site whose pages link to each other: the page [/b] is reached
    and visited, the other site is neither. *)
Lemma returned_run_visits_reachable_witness :
  (reachable (Web.get RingSite.pages) (Web.soup RingSite.docs) Urllib.netloc
     Urllib.urljoin seed_url "https://example.com/b"
   <-> "https://example.com/b" ∈ visited (state_of (Web.run RingSite.pages RingSite.docs 5 seed_url)))
  /\ ~ reachable (Web.get RingSite.pages) (Web.soup RingSite.docs) Urllib.netloc
         Urllib.urljoin seed_url "https://other.org/".
Proof.
  assert (Hrun : Web.run RingSite.pages RingSite.docs 5 seed_url
                 = Returned (state_of (Web.run RingSite.pages RingSite.docs 5 seed_url)))
    by (vm_compute; reflexivity).
  assert (Herr : errors (trace (state_of (Web.run RingSite.pages RingSite.docs 5 seed_url)))
                 = []) by (vm_compute; reflexivity).
  pose proof (returned_run_visits_reachable (Web.get RingSite.pages)
                (Web.soup RingSite.docs) Urllib.netloc Urllib.urljoin 5 seed_url _ eq_refl
                Hrun Herr) as Hiff.
  split; [symmetry; apply Hiff|].
  intros Hr%Hiff. vm_compute in Hr. discriminate Hr.
Defined.

(** X10 on the index of [test_search]. *)
Lemma index_then_search_witness :
  "page2" ∈ search_with Unicode.lower
             (dict_set "page2" "No keyword here" [("page1", "This has the keyword")])
             "KEYWORD"
  /\ NoDup (keys [("page1", "This has the keyword")]).
Proof.
  assert (Hnd : NoDup (keys [("page1", "This has the keyword")])).
  { apply (bool_decide_unpack _). vm_compute. exact I. }
  split; [|exact Hnd].
  destruct (index_then_search Unicode.lower unicode_lowers_ascii
              [("page1", "This has the keyword")] "page2"
              "No keyword here" "KEYWORD" Hnd) as (_ & Hfound & _).
  apply Hfound; [reflexivity | reflexivity |].
  apply contains_lower_ignoring_case. vm_compute. reflexivity.
Defined.

(** X11: the results for [Keyword] are among those for [key]. *)
Lemma longer_keyword_narrows_witness :
  search_with Unicode.lower
    [("page1", "This has the keyword"); ("page2", "A key here")] "Keyword"
    `sublist_of`
  search_with Unicode.lower
    [("page1", "This has the keyword"); ("page2", "A key here")] "key"
  /\ search_with Unicode.lower
       [("page1", "This has the keyword"); ("page2", "A key here")] "key"
     = ["page1"; "page2"].
Proof.
  split; [|vm_compute; reflexivity].
  apply (longer_keyword_narrows Unicode.lower unicode_lowers_ascii).
  right. split; [reflexivity|]. split; [reflexivity|].
  apply contains_lower_ignoring_case. vm_compute. reflexivity.
Defined.

(** X12: a keyword longer than the texts. *)
Lemma keyword_longer_than_texts_witness :
  search_with Unicode.lower [("page1", "short"); ("page2", "")] "a longer keyword" = []
  /\ String.length "short" < String.length "a longer keyword".
Proof.
  split; [|vm_compute; lia].
  apply (keyword_longer_than_texts Unicode.lower unicode_lowers_ascii); [reflexivity|].
  intros u t Hin.
  apply elem_of_cons in Hin as [[= -> ->]|Hin]; [split; [reflexivity | vm_compute; lia]|].
  apply list_elem_of_singleton in Hin as [= -> ->]. split; [reflexivity | vm_compute; lia].
Defined.

(** X13 on the news site: the blog page is found under [Test], the FAQ
    page is not. *)
Lemma search_after_crawl_witness :
  let w := state_of (Web.run NewsSite.pages NewsSite.docs 5 seed_url) in
  "https://example.com/blog" ∈ search_with Unicode.lower (index w) "Test"
  /\ ("https://example.com/faq" ∉ search_with Unicode.lower (index w) "Test").
Proof.
  destruct (search_after_crawl (Web.get NewsSite.pages) (Web.soup NewsSite.docs)
              Urllib.netloc Urllib.urljoin Unicode.lower unicode_lowers_ascii
              5 seed_url None "Test") as (_ & Hs & _).
  split.
  - apply (Hs eq_refl _ {| get_text := "A TEST post"; find_all_a := [] |});
      [vm_compute; reflexivity | reflexivity |].
    split; [vm_compute; reflexivity|].
    apply contains_lower_ignoring_case. vm_compute. reflexivity.
  - intros Hin.
    apply (Hs eq_refl _ {| get_text := "Questions"; find_all_a := [] |}) in Hin
      as [_ Ho]; [|vm_compute; reflexivity | reflexivity].
    apply contains_lower_ignoring_case in Ho. vm_compute in Ho. discriminate Ho.
Defined.

(** X14 on the results of the news site. *)
Lemma print_results_faithful_witness :
  lines_of (stdout_of (print_results ["https://example.com"; "https://example.com/blog"]))
  = ["Search results:"; "- https://example.com"; "- https://example.com/blog"]
  /\ "- https://example.com/blog"
     ∈ lines_of (stdout_of (print_results ["https://example.com"; "https://example.com/blog"])).
Proof.
  destruct print_results_faithful as (Hlines & _).
  destruct (Hlines ["https://example.com"; "https://example.com/blog"])
    as (Heq & _ & _ & Hin).
  - repeat constructor.
  - split; [exact Heq|]. apply (Hin "https://example.com/blog"). right. left.
Defined.

(** X19: [Test] and [tEST] find the same pages. *)
Lemma search_ignores_case_witness :
  search_with Unicode.lower [("blog", "A TEST post"); ("faq", "Questions")] "Test"
  = search_with Unicode.lower [("blog", "A TEST post"); ("faq", "Questions")] "tEST"
  /\ search_with Unicode.lower [("blog", "A TEST post"); ("faq", "Questions")] "tEST"
     = ["blog"].
Proof.
  split; [|vm_compute; reflexivity].
  destruct (search_ignores_case Unicode.lower unicode_lowers_ascii
              [("blog", "A TEST post"); ("faq", "Questions")] "Test" "tEST" eq_refl)
    as (Hsame & _).
  apply Hsame; [reflexivity|]. apply lower_same_nocase. reflexivity.
Defined.
